(** * easyupoo: the persistent cache and the price pipeline of the extension

    A shallow embedding of the data layer of the easyupoo browser
    extension (content.js and popup.js): the [PersistentCache] class over
    [chrome.storage.local], the platform selection of [selectPlatformPrice],
    the page fetch of [fetchProductDetails], the fee and currency functions,
    and both cache import handlers.

    Conventions of the embedding.
    - JavaScript numbers that hold prices and rates are binary64 floats
      ([PrimFloat]); [Date.now()] readings and the timestamps made from them
      are integers of milliseconds ([Z]).
    - A JavaScript [Map], and an object enumerated with [Object.entries], is
      an association list in insertion order.
    - An [async] method is a function of the world (the cache object, the
      extension storage, the pending storage failures, the alerts shown) to a
      completion and a new world; [await] is sequencing.  One [Date.now()]
      reading, the parameter [now], is used for one run of a method. *)

From Stdlib Require Import ZArith List String Ascii Bool Lia DecimalString.
From Stdlib Require Import Sorted Permutation.
From Stdlib Require Import PrimFloat FloatOps SpecFloat.
Import ListNotations.

Open Scope Z_scope.

(* Decimal literals denote the nearest binary64 value, as they do in
   JavaScript. *)
#[local] Set Warnings "-inexact-float".

(** ** JavaScript values and library functions *)

Module Js.

(** JSON-like values: what a cache payload, a metadata field or a field of an
    imported file can hold. *)
#[warnings="-register-all"]
Inductive JsValue : Type :=
| JsUndefined
| JsNull
| JsBool (b : bool)
| JsNum (x : float)
| JsStr (s : string)
| JsObj (fields : list (string * JsValue)).

Definition is_nan (x : float) : bool := negb (PrimFloat.eqb x x).

(** [!x] on a number: zero (of either sign) and NaN are falsy. *)
Definition number_truthy (x : float) : bool :=
  negb (PrimFloat.eqb x 0%float || is_nan x).

(** ToBoolean. *)
Definition truthy (v : JsValue) : bool :=
  match v with
  | JsUndefined | JsNull => false
  | JsBool b => b
  | JsNum x => number_truthy x
  | JsStr s => negb (String.eqb s EmptyString)
  | JsObj _ => true
  end.

(** [v !== s] for a string [s]: strict inequality, no coercion. *)
Definition strict_neq_string (v : JsValue) (s : string) : bool :=
  match v with
  | JsStr s' => negb (String.eqb s' s)
  | _ => true
  end.

(** [String.prototype.toLowerCase] on ASCII text. *)
Definition lower_ascii (c : ascii) : ascii :=
  let n := nat_of_ascii c in
  if (Nat.leb 65 n && Nat.leb n 90)%bool then ascii_of_nat (n + 32) else c.

Fixpoint toLowerCase (s : string) : string :=
  match s with
  | EmptyString => EmptyString
  | String c s' => String (lower_ascii c) (toLowerCase s')
  end.

(** [Array.prototype.sort(cmp)]: the sort is stable, and for a consistent
    comparator the result is the one of this insertion sort.  [cmp a b <= 0]
    keeps [a] before [b]. *)
Section Sort.
Context {A : Type} (cmp : A -> A -> Z).

Fixpoint sort_insert (x : A) (l : list A) : list A :=
  match l with
  | [] => [x]
  | y :: l' => if cmp x y <=? 0 then x :: y :: l' else y :: sort_insert x l'
  end.

Fixpoint array_sort (l : list A) : list A :=
  match l with
  | [] => []
  | x :: l' => sort_insert x (array_sort l')
  end.
End Sort.

(** [Map]: keys are strings, entries are kept in insertion order. *)
Section Map.
Context {V : Type}.

Definition JsMap : Type := list (string * V).

Fixpoint map_get (k : string) (m : JsMap) : option V :=
  match m with
  | [] => None
  | (k', v) :: m' => if String.eqb k k' then Some v else map_get k m'
  end.

(** [Map.prototype.set]: an existing key keeps its place, a new key goes
    last. *)
Fixpoint map_set (k : string) (v : V) (m : JsMap) : JsMap :=
  match m with
  | [] => [(k, v)]
  | (k', v') :: m' =>
      if String.eqb k k' then (k, v) :: m' else (k', v') :: map_set k v m'
  end.

Fixpoint map_delete (k : string) (m : JsMap) : JsMap :=
  match m with
  | [] => []
  | (k', v') :: m' =>
      if String.eqb k k' then m' else (k', v') :: map_delete k m'
  end.

Definition map_size (m : JsMap) : Z := Z.of_nat (List.length m).

Definition map_keys (m : JsMap) : list string := List.map fst m.

(** The keys of a [Map] are pairwise distinct. *)
Definition map_wf (m : JsMap) : Prop := NoDup (map_keys m).
End Map.

(** A test for pairwise distinct keys. *)
Fixpoint distinctb (l : list string) : bool :=
  match l with
  | [] => true
  | x :: l' => negb (existsb (String.eqb x) l') && distinctb l'
  end.
Arguments JsMap V : clear implicits.

(** How a statement list ends: normally with a value, or by a [throw]. *)
Inductive Completion (A : Type) : Type :=
| Normal (a : A)
| Throw (message : string).
Arguments Normal {A} a.
Arguments Throw {A} message.

End Js.
Import Js.

(** ** Configuration constants (content.js, top of the file) *)

Record PlatformInfo : Type := { baseUrl : string; priority : Z }.

Definition PLATFORM_CONFIG_platforms : JsMap PlatformInfo :=
  [ ("taobao"%string,
     {| baseUrl := "https://www.jadeship.com/item/taobao/"; priority := 1 |});
    ("weidian"%string,
     {| baseUrl := "https://www.jadeship.com/item/weidian/"; priority := 2 |}) ].

Record CacheConfig : Type :=
  { version : string; maxAge : Z; maxItems : Z }.

Definition CACHE_CONFIG : CacheConfig :=
  {| version := "1.0.0";
     maxAge := 7 * 24 * 60 * 60 * 1000;
     maxItems := 1000 |}.

(** ** The world an async method runs in *)

(** A cache entry as [set] builds it and [persistToStorage] stores it:
    the payload, and two [Date.now()] readings.  A [timestamp] of 0 is the
    falsy one. *)
Record CacheEntry : Type :=
  { data : JsValue; timestamp : Z; lastAccessed : Z }.

(** The [cacheMetadata] record of the storage. *)
Record CacheMetadata : Type :=
  { md_version : JsValue; lastCleanup : Z }.

(** The two keys of [chrome.storage.local] that the cache uses; [None] is a
    key that is not stored. *)
Record Storage : Type :=
  { productCache : option (JsMap CacheEntry);
    cacheMetadata : option CacheMetadata }.

(** [this_data] and [this_initialized] are the fields of the one
    [PersistentCache] object; [faults] tells, for the storage calls to come,
    which ones reject ([true]); [alerts] are the messages shown with
    [alert], the latest first. *)
Record World : Type :=
  { this_data : JsMap CacheEntry;
    this_initialized : bool;
    local : Storage;
    faults : list bool;
    alerts : list string }.

Definition with_data (m : JsMap CacheEntry) (w : World) : World :=
  {| this_data := m; this_initialized := this_initialized w;
     local := local w; faults := faults w; alerts := alerts w |}.

Definition with_initialized (b : bool) (w : World) : World :=
  {| this_data := this_data w; this_initialized := b;
     local := local w; faults := faults w; alerts := alerts w |}.

Definition with_local (s : Storage) (w : World) : World :=
  {| this_data := this_data w; this_initialized := this_initialized w;
     local := s; faults := faults w; alerts := alerts w |}.

Definition with_faults (f : list bool) (w : World) : World :=
  {| this_data := this_data w; this_initialized := this_initialized w;
     local := local w; faults := f; alerts := alerts w |}.

Definition with_alert (msg : string) (w : World) : World :=
  {| this_data := this_data w; this_initialized := this_initialized w;
     local := local w; faults := faults w; alerts := msg :: alerts w |}.

(** The monad of async code: state passing with exceptions.  A [throw]
    keeps the state reached so far. *)
Definition Async (A : Type) : Type := World -> Completion A * World.

Definition ret {A : Type} (a : A) : Async A := fun w => (Normal a, w).

Definition bind {A B : Type} (m : Async A) (k : A -> Async B) : Async B :=
  fun w =>
    match m w with
    | (Normal a, w') => k a w'
    | (Throw e, w') => (Throw e, w')
    end.

Definition throw {A : Type} (e : string) : Async A := fun w => (Throw e, w).

Definition try_catch {A : Type} (body : Async A) (handler : string -> Async A)
  : Async A :=
  fun w =>
    match body w with
    | (Normal a, w') => (Normal a, w')
    | (Throw e, w') => handler e w'
    end.

Definition modify (f : World -> World) : Async unit :=
  fun w => (Normal tt, f w).

Definition read {A : Type} (f : World -> A) : Async A :=
  fun w => (Normal (f w), w).

Declare Scope async_scope.
Delimit Scope async_scope with async.
Notation "x <- m ;; k" := (bind m (fun x => k))
  (at level 61, m at next level, right associativity) : async_scope.
Notation "m ;;; k" := (bind m (fun _ => k))
  (at level 61, right associativity) : async_scope.
Open Scope async_scope.

(** One call of [chrome.storage.local]: it rejects when the next pending
    fault says so, and otherwise applies [op] to the storage as a whole. *)
Definition storage_call {A : Type} (op : Storage -> A * Storage) : Async A :=
  fun w =>
    match faults w with
    | true :: rest => (Throw "storage call rejected", with_faults rest w)
    | false :: rest =>
        let (a, s) := op (local w) in (Normal a, with_local s (with_faults rest w))
    | [] => let (a, s) := op (local w) in (Normal a, with_local s w)
    end.

Definition storage_get_cacheMetadata : Async (option CacheMetadata) :=
  storage_call (fun s => (cacheMetadata s, s)).

Definition storage_get_productCache : Async (option (JsMap CacheEntry)) :=
  storage_call (fun s => (productCache s, s)).

Definition storage_get_both : Async Storage :=
  storage_call (fun s => (s, s)).

Definition storage_set_cacheMetadata (md : CacheMetadata) : Async unit :=
  storage_call (fun s =>
    (tt, {| productCache := productCache s; cacheMetadata := Some md |})).

Definition storage_set_productCache (o : JsMap CacheEntry) : Async unit :=
  storage_call (fun s =>
    (tt, {| productCache := Some o; cacheMetadata := cacheMetadata s |})).

Definition storage_set_both (o : JsMap CacheEntry) (md : CacheMetadata)
  : Async unit :=
  storage_call (fun _ =>
    (tt, {| productCache := Some o; cacheMetadata := Some md |})).

Definition storage_remove_both : Async unit :=
  storage_call (fun _ => (tt, {| productCache := None; cacheMetadata := None |})).

(** ** class PersistentCache (content.js) *)

Module PersistentCache.

(** [isValidCacheEntry(entry)].  The leading [entry &&] guard is the
    [option] match of the callers: an entry that exists is an object. *)
Definition isValidCacheEntry (now : Z) (entry : CacheEntry) : bool :=
  negb (timestamp entry =? 0)
  && (now - timestamp entry <? maxAge CACHE_CONFIG)
  && truthy (data entry).

(** [await this.initPromise]: the promise made by the constructor has
    settled in every state in which a method resumes. *)
Definition waitForInitialization : Async unit := ret tt.

(** [entry.lastAccessed = Date.now()], on the entry object held by the
    map. *)
Definition touch (now : Z) (entry : CacheEntry) : CacheEntry :=
  {| data := data entry; timestamp := timestamp entry; lastAccessed := now |}.

Definition get (now : Z) (key : string) : Async JsValue :=
  waitForInitialization ;;;
  this <- read this_data ;;
  match map_get key this with
  | Some entry =>
      if isValidCacheEntry now entry then
        modify (fun w => with_data (map_set key (touch now entry) (this_data w)) w) ;;;
        ret (data entry)
      else ret JsNull
  | None => ret JsNull
  end.

(** [persistToStorage]: a failed write is logged and swallowed. *)
Definition persistToStorage : Async unit :=
  try_catch
    (cacheObject <- read this_data ;;
     storage_set_productCache cacheObject)
    (fun _ => ret tt).

Definition set (now : Z) (key : string) (value : JsValue) : Async unit :=
  waitForInitialization ;;;
  let entry := {| data := value; timestamp := now; lastAccessed := now |} in
  modify (fun w => with_data (map_set key entry (this_data w)) w) ;;;
  persistToStorage.

(** First loop of [cleanup]: every entry of the map is visited once, and an
    invalid one is deleted by its key.  The state is the map and the
    [deleted] counter. *)
Fixpoint purge_invalid (now : Z) (entries : list (string * CacheEntry))
  (st : JsMap CacheEntry * nat) : JsMap CacheEntry * nat :=
  match entries with
  | [] => st
  | (key, entry) :: rest =>
      if isValidCacheEntry now entry then purge_invalid now rest st
      else purge_invalid now rest (map_delete key (fst st), S (snd st))
  end.

(** The test of the first loop, on an entry of the map. *)
Definition valid_at (now : Z) (kv : string * CacheEntry) : bool :=
  isValidCacheEntry now (snd kv).

(** The comparator of the second phase: [b[1].lastAccessed - a[1].lastAccessed]. *)
Definition by_lastAccessed_desc (a b : string * CacheEntry) : Z :=
  lastAccessed (snd b) - lastAccessed (snd a).

(** The [while] loop of [cleanup].  [popped] is [sortedEntries] read from
    its tail, the order in which [pop()] hands the entries out; popping an
    empty array gives [undefined], whose destructuring throws. *)
Fixpoint evict (popped : list (string * CacheEntry))
  (st : JsMap CacheEntry * nat) : Completion unit * (JsMap CacheEntry * nat) :=
  if maxItems CACHE_CONFIG <? map_size (fst st) then
    match popped with
    | [] => (Throw "TypeError: undefined is not iterable", st)
    | (keyToDelete, _) :: rest =>
        evict rest (map_delete keyToDelete (fst st), S (snd st))
    end
  else (Normal tt, st).

(** Both phases of [cleanup] on the map: the completion, the map left and
    the value of [deleted]. *)
Definition sweep (now : Z) (m : JsMap CacheEntry)
  : Completion unit * (JsMap CacheEntry * nat) :=
  let st := purge_invalid now m (m, 0%nat) in
  if maxItems CACHE_CONFIG <? map_size (fst st) then
    let sortedEntries := array_sort by_lastAccessed_desc (fst st) in
    evict (rev sortedEntries) st
  else (Normal tt, st).

Definition cleanup (now : Z) : Async unit :=
  fun w =>
    let '(c, (m, deleted)) := sweep now (this_data w) in
    let w' := with_data m w in
    match c with
    | Normal _ => if (0 <? deleted)%nat then persistToStorage w' else (Normal tt, w')
    | Throw e => (Throw e, w')
    end.

Definition clearCache : Async unit :=
  modify (with_data []) ;;;
  storage_remove_both.

(** The loading loop of [initialize]: [this.data.set(key, value)] for the
    stored entries that are valid. *)
Fixpoint load_entries (now : Z) (stored : list (string * CacheEntry))
  (m : JsMap CacheEntry) : JsMap CacheEntry :=
  match stored with
  | [] => m
  | (key, value) :: rest =>
      load_entries now rest
        (if isValidCacheEntry now value then map_set key value m else m)
  end.

Definition set_version (v : string) (md : CacheMetadata) : CacheMetadata :=
  {| md_version := JsStr v; lastCleanup := lastCleanup md |}.

Definition set_lastCleanup (t : Z) (md : CacheMetadata) : CacheMetadata :=
  {| md_version := md_version md; lastCleanup := t |}.

Definition initialize (now : Z) : Async unit :=
  initialized <- read this_initialized ;;
  if initialized : bool then ret tt
  else
    try_catch
      (metadata <- storage_get_cacheMetadata ;;
       let currentMetadata :=
         match metadata with
         | Some md => md
         | None => {| md_version := JsStr (version CACHE_CONFIG);
                      lastCleanup := now |}
         end in
       currentMetadata <-
         (if strict_neq_string (md_version currentMetadata) (version CACHE_CONFIG)
          then clearCache ;;;
               ret (set_version (version CACHE_CONFIG) currentMetadata)
          else ret currentMetadata) ;;
       result <- storage_get_productCache ;;
       match result with
       | Some storedCache =>
           modify (fun w => with_data (load_entries now storedCache (this_data w)) w)
       | None => ret tt
       end ;;;
       currentMetadata <-
         (if 24 * 60 * 60 * 1000 <? now - lastCleanup currentMetadata
          then cleanup now ;;;
               ret (set_lastCleanup now currentMetadata)
          else ret currentMetadata) ;;
       storage_set_cacheMetadata currentMetadata ;;;
       modify (with_initialized true))
      (fun _ => modify (with_initialized true)).

(** [new PersistentCache()]. *)
Definition constructor (now : Z) : Async unit :=
  modify (fun w => with_initialized false (with_data [] w)) ;;;
  initialize now.

End PersistentCache.

(** ** Platform selection and the page fetch (content.js) *)

(** What one platform answered: [{ price, link }]. *)
Record PlatformPrice : Type := { price : string; link : option string }.

(** The object a resolution ends with: either an entry of [prices] as it
    is ([r_platform] and [r_priority] absent), or [{ platform, ...data,
    priority }]. *)
Record ResolvedPrice : Type :=
  { r_platform : option string;
    r_data : PlatformPrice;
    r_priority : option Z }.

Definition unavailable : PlatformPrice := {| price := "N/A"; link := None |}.

Definition plain (d : PlatformPrice) : ResolvedPrice :=
  {| r_platform := None; r_data := d; r_priority := None |}.

(** ToBoolean of [string | null]. *)
Definition string_truthy (s : option string) : bool :=
  match s with
  | Some s' => negb (String.eqb s' EmptyString)
  | None => false
  end.

(** The filter of [selectPlatformPrice]: [data.price !== 'N/A' && data.link]. *)
Definition available (d : PlatformPrice) : bool :=
  negb (String.eqb (price d) "N/A") && string_truthy (link d).

(** The [map] step: [platforms[platform].priority] throws for a key that
    is not a configured platform. *)
Fixpoint with_priority (entries : list (string * PlatformPrice))
  : Completion (list (string * PlatformPrice * Z)) :=
  match entries with
  | [] => Normal []
  | (platform, d) :: rest =>
      match map_get platform PLATFORM_CONFIG_platforms with
      | None => Throw "TypeError: cannot read 'priority' of undefined"
      | Some info =>
          match with_priority rest with
          | Normal l => Normal ((platform, d, priority info) :: l)
          | Throw e => Throw e
          end
      end
  end.

(** The comparator of the last [sort]: [a.priority - b.priority]. *)
Definition by_priority (a b : string * PlatformPrice * Z) : Z := snd a - snd b.

Definition selectPlatformPrice (prices : JsMap PlatformPrice)
  : Completion ResolvedPrice :=
  match with_priority (filter (fun e => available (snd e)) prices) with
  | Throw e => Throw e
  | Normal [] =>
      match array_sort (fun a b => priority (snd a) - priority (snd b))
                       PLATFORM_CONFIG_platforms with
      | [] => Throw "TypeError: cannot read '0' of undefined"
      | (highestPriority, _) :: _ =>
          match map_get highestPriority prices with
          | Some d => Normal (plain d)
          | None => Normal (plain unavailable)
          end
      end
  | Normal (first :: others) =>
      match array_sort by_priority (first :: others) with
      | [] => Throw "unreachable: a sorted array keeps its length"
      | (platform, d, prio) :: _ =>
          Normal {| r_platform := Some platform; r_data := d;
                    r_priority := Some prio |}
      end
  end.

(** What the browser does for one run of [fetchProductDetails]. *)

(** The first [await]: the race of [fetch(productLink)] with the 10 s
    timer, and then [response.text()].  A page that was read is given by
    the two [content.match] results ([null] or the matched text). *)
Inductive PageOutcome : Type :=
| RaceTimeout
| FetchRejected
| TextRejected
| PageRead (taobaoMatch weidianMatch : option string).

(** The answer to [chrome.runtime.sendMessage]: a rejection, or a response
    with its [success] flag and the text of the price node, if any. *)
Inductive PriceReply : Type :=
| SendRejected
| Reply (success : bool) (priceText : option string).

(** [extractTaobaoId] and [extractWeidianId] parse with the browser's
    [URL]; they return a string or [null] and catch their own errors. *)
Record Browser : Type :=
  { fetch_page : string -> PageOutcome;
    extractTaobaoId : string -> option string;
    extractWeidianId : string -> option string;
    sendMessage : string -> PriceReply }.

(** [prices[platform].link = link] and [prices[platform].price = p]. *)
Definition assign_link (platform : string) (l : string)
  (prices : JsMap PlatformPrice) : Completion (JsMap PlatformPrice) :=
  match map_get platform prices with
  | Some d => Normal (map_set platform {| price := price d; link := Some l |} prices)
  | None => Throw "TypeError: cannot set 'link' of undefined"
  end.

Definition assign_price (platform : string) (p : string)
  (prices : JsMap PlatformPrice) : Completion (JsMap PlatformPrice) :=
  match map_get platform prices with
  | Some d => Normal (map_set platform {| price := p; link := link d |} prices)
  | None => Throw "TypeError: cannot set 'price' of undefined"
  end.

(** The inner [try]: a rejected message and a failed assignment are both
    caught and leave [prices] as it was before the statement that threw. *)
Definition fetch_price (br : Browser) (platform jadeshipUrl : string)
  (prices : JsMap PlatformPrice) : JsMap PlatformPrice :=
  match sendMessage br jadeshipUrl with
  | SendRejected => prices
  | Reply false _ => prices
  | Reply true priceText =>
      let p := if string_truthy priceText
               then match priceText with Some t => t | None => "N/A"%string end
               else "N/A"%string in
      match assign_price platform p prices with
      | Normal prices' => prices'
      | Throw _ => prices
      end
  end.

Definition fetchPriceForPlatform (br : Browser) (platform lnk : string)
  (extractId : string -> option string) (prices : JsMap PlatformPrice)
  : Completion (JsMap PlatformPrice) :=
  let productId := extractId ("https://" ++ lnk)%string in
  if string_truthy productId then
    match assign_link platform lnk prices with
    | Throw e => Throw e
    | Normal prices1 =>
        match map_get platform PLATFORM_CONFIG_platforms with
        | None => Throw "TypeError: cannot read 'baseUrl' of undefined"
        | Some info =>
            let id := match productId with Some i => i | None => EmptyString end in
            Normal (fetch_price br platform (baseUrl info ++ id)%string prices1)
        end
    end
  else Normal prices.

(** The body of the outer [try].  The two branches of [Promise.all] write
    to different entries of [prices], so they are run one after the other. *)
Definition fetch_body (br : Browser) (productLink : string)
  : Completion ResolvedPrice :=
  match fetch_page br productLink with
  | RaceTimeout => Throw "Timeout"
  | FetchRejected => Throw "TypeError: Failed to fetch"
  | TextRejected => Throw "TypeError: body stream failed"
  | PageRead taobaoMatch weidianMatch =>
      let prices : JsMap PlatformPrice :=
        [("taobao"%string, unavailable); ("weidian"%string, unavailable)] in
      let after_taobao :=
        match taobaoMatch with
        | Some m => fetchPriceForPlatform br "taobao" m (extractTaobaoId br) prices
        | None => Normal prices
        end in
      match after_taobao with
      | Throw e => Throw e
      | Normal prices1 =>
          let after_weidian :=
            match weidianMatch with
            | Some m =>
                fetchPriceForPlatform br "weidian" m (extractWeidianId br) prices1
            | None => Normal prices1
            end in
          match after_weidian with
          | Throw e => Throw e
          | Normal prices2 => selectPlatformPrice prices2
          end
      end
  end.

Definition fetchProductDetails (br : Browser) (productLink : string)
  : Completion ResolvedPrice :=
  match fetch_body br productLink with
  | Normal r => Normal r
  | Throw _ => Normal (plain unavailable)
  end.

(** ** Fees and currency conversion (content.js) *)

(** The agent names that have a [case] of their own. *)
Definition recognized_agents : list string :=
  ["superbuy"; "cssbuy"; "allchinabuy"]%string.

(** [calculateAgentFee(price, agent)]. *)
Definition calculateAgentFee (price : float) (agent : string) : float :=
  let a := toLowerCase agent in
  if String.eqb a "superbuy" then (price * 1.0238)%float
  else if String.eqb a "cssbuy" then (price * 1.02)%float
  else if String.eqb a "allchinabuy" then (price * 1.04)%float
  else (price * 1.03)%float.

(** [Number(x.toFixed(2))].  [toFixed] takes the integer [n] nearest to
    [100 * |x|] in exact arithmetic (the larger one on a tie) and prints
    [n / 100] with the sign of [x]; [Number] reads the digits back as the
    nearest float.  From [1e21] on, and for infinities and NaN, [toFixed]
    prints the number itself. *)
Definition hundredths (m : positive) (e : Z) : Z :=
  let num := Z.pos m * 100 in
  if 0 <=? e then num * 2 ^ e
  else (2 * num + 2 ^ (- e)) / 2 ^ (1 - e).

Definition toFixed2 (x : float) : float :=
  match Prim2SF x with
  | S754_finite s m e =>
      if PrimFloat.leb 1e21%float (PrimFloat.abs x) then x
      else
        let q :=
          match hundredths m e with
          | Z.pos n =>
              SF2Prim (SFdiv prec emax (S754_finite false n 0)
                                       (S754_finite false 100 0))
          | _ => 0%float
          end in
        if s then PrimFloat.opp q else q
  | S754_zero _ => 0%float
  | _ => x
  end.

(** The exchange-rate cache: [rates] is [null] until a table is fetched;
    a table maps a lower-case currency code to its multiplier. *)
Record CurrencyCache : Type :=
  { rates : option (JsMap float);
    lastUpdate : option Z }.

(** [convertCurrency(amount, fromCurrency, toCurrency)] over the cache
    object [CURRENCY_CACHE]. *)
Definition convertCurrency (CURRENCY_CACHE : CurrencyCache)
  (amount : float) (fromCurrency toCurrency : string) : float :=
  match rates CURRENCY_CACHE with
  | None => amount
  | Some table =>
      match map_get (toLowerCase toCurrency) table with
      | None => amount
      | Some rate =>
          if number_truthy rate then
            let converted := (amount * rate)%float in
            toFixed2 converted
          else amount
      end
  end.

(** ** Cache import (popup.js and the settings panel of content.js) *)

(** The file the user picked, after [JSON.parse]: the [version] field
    ([JsUndefined] when the file has none) and the [items] object ([None]
    when the file has none). *)
Record ImportData : Type :=
  { file_version : JsValue;
    file_items : option (JsMap CacheEntry) }.

Inductive ImportFile : Type :=
| Unparsable
| Parsed (d : ImportData).

Definition parse_file (f : ImportFile) : Async ImportData :=
  match f with
  | Unparsable => throw "Unexpected token in JSON"
  | Parsed d => ret d
  end.

(** The [catch] of both handlers. *)
Definition report_import_failure (message : string) : Async unit :=
  modify (with_alert ("Failed to import cache: " ++ message)%string).

Module Popup.

(** [updateCacheStats]: one read of the storage, then rendering. *)
Definition updateCacheStats : Async unit :=
  storage_get_both ;;; ret tt.

(** The [onchange] handler of [importCache] in popup.js. *)
Definition importCache (now : Z) (file : ImportFile) : Async unit :=
  try_catch
    (d <- parse_file file ;;
     match truthy (file_version d), file_items d with
     | true, Some its =>
         storage_set_both its
           {| md_version := file_version d; lastCleanup := now |} ;;;
         updateCacheStats
     | _, _ => throw "Invalid cache file format"
     end)
    report_import_failure.

End Popup.

Module Settings.

(** [createCacheStats]: one read of the metadata, then rendering. *)
Definition createCacheStats : Async unit :=
  storage_get_cacheMetadata ;;; ret tt.

(** [for (const [key, value] of Object.entries(data.items))
      await productCache.set(key, value.data)]. *)
Fixpoint import_items (now : Z) (entries : list (string * CacheEntry))
  : Async unit :=
  match entries with
  | [] => ret tt
  | (key, value) :: rest =>
      PersistentCache.set now key (data value) ;;;
      import_items now rest
  end.

(** The [onchange] handler of [importCache] in [showSettingsPopup]. *)
Definition importCache (now : Z) (file : ImportFile) : Async unit :=
  try_catch
    (d <- parse_file file ;;
     if strict_neq_string (file_version d) (version CACHE_CONFIG)
     then throw "Cache version mismatch"
     else
       PersistentCache.clearCache ;;;
       match file_items d with
       | None => throw "Cannot convert undefined or null to object"
       | Some its => import_items now its
       end ;;;
       createCacheStats)
    report_import_failure.

End Settings.

(** ** Conditions and helpers of the statements *)

(** The stored metadata, if any, has the expected version and a cleanup
    within the last 24 hours. *)
Definition metadata_current (now : Z) (omd : option CacheMetadata) : Prop :=
  match omd with
  | Some md => md_version md = JsStr (version CACHE_CONFIG)
               /\ now - lastCleanup md <= 24 * 60 * 60 * 1000
  | None => True
  end.

(** The entry that the settings import makes of a file item. *)
Definition reimported (now : Z) (kv : string * CacheEntry) : string * CacheEntry :=
  (fst kv, {| data := data (snd kv); timestamp := now; lastAccessed := now |}).

(** ** Cache export and the clear buttons *)

Definition is_infinite (x : float) : bool :=
  PrimFloat.eqb (PrimFloat.abs x) infinity.

(** [JSON.parse(JSON.stringify(v))]: a member that is [undefined] is left
    out, NaN and the infinities are written as [null], and [-0] is written
    as [0]. *)
Fixpoint json_roundtrip (v : JsValue) : JsValue :=
  match v with
  | JsNum x =>
      if (is_nan x || is_infinite x)%bool then JsNull
      else if PrimFloat.eqb x 0%float then JsNum 0%float
      else JsNum x
  | JsObj fields =>
      JsObj ((fix members (l : list (string * JsValue)) : list (string * JsValue) :=
                match l with
                | [] => []
                | (k, JsUndefined) :: l' => members l'
                | (k, v') :: l' => (k, json_roundtrip v') :: members l'
                end) fields)
  | _ => v
  end.

(** An entry of the cache after the same trip: an absent [data] member
    reads as [undefined] again. *)
Definition json_entry (e : CacheEntry) : CacheEntry :=
  {| data := json_roundtrip (data e);
     timestamp := timestamp e;
     lastAccessed := lastAccessed e |}.

Definition json_items (m : JsMap CacheEntry) : JsMap CacheEntry :=
  List.map (fun kv => (fst kv, json_entry (snd kv))) m.

Module PopupActions.

(** [exportCache] in popup.js: the file written from the storage, as
    [JSON.parse] gives it back.  The read of the storage is not guarded. *)
Definition exportCache : Async ImportData :=
  result <- storage_get_both ;;
  let v :=
    match cacheMetadata result with
    | Some md => if truthy (md_version md) then md_version md
                 else JsStr "1.0.0"
    | None => JsStr "1.0.0"
    end in
  let items :=
    match productCache result with
    | Some o => o
    | None => []
    end in
  ret {| file_version := json_roundtrip v;
         file_items := Some (json_items items) |}.

(** [clearCache] in popup.js; [confirmed] is the answer to [confirm]. *)
Definition clearCache (confirmed : bool) : Async unit :=
  if confirmed then
    storage_remove_both ;;;
    Popup.updateCacheStats
  else ret tt.

End PopupActions.

Module SettingsActions.

(** [exportCache] of the settings panel: the file written from the map in
    memory, as [JSON.parse] gives it back. *)
Definition exportCache (w : World) : ImportData :=
  {| file_version := JsStr (version CACHE_CONFIG);
     file_items := Some (json_items (this_data w)) |}.

(** The 'Clear Cache' button of the settings panel. *)
Definition clearButton (confirmed : bool) : Async unit :=
  if confirmed then
    PersistentCache.clearCache ;;;
    Settings.createCacheStats
  else ret tt.

End SettingsActions.

(** ** class BookmarkManager (content.js) *)

Module BookmarkManager.

Record Bookmark : Type := { title : string; url : string; timestamp : Z }.

(** The manager object, the [bookmarks] key of the storage, and the
    storage calls to come that reject. *)
Record State : Type :=
  { bookmarks : JsMap Bookmark;
    initialized : bool;
    stored : option (JsMap Bookmark);
    faults : list bool }.

(** [new Map(Object.entries(o))]. *)
Fixpoint map_of_entries (entries : list (string * Bookmark))
  (m : JsMap Bookmark) : JsMap Bookmark :=
  match entries with
  | [] => m
  | (k, b) :: rest => map_of_entries rest (map_set k b m)
  end.

(** [initialize]: a rejected read is logged, and the manager is marked as
    initialized either way. *)
Definition initialize (s : State) : State :=
  if initialized s then s
  else
    match faults s with
    | true :: rest =>
        {| bookmarks := bookmarks s; initialized := true;
           stored := stored s; faults := rest |}
    | f =>
        {| bookmarks := match stored s with
                        | Some o => map_of_entries o []
                        | None => bookmarks s
                        end;
           initialized := true;
           stored := stored s;
           faults := tl f |}
    end.

(** [persistToStorage]: a rejected write is logged and swallowed. *)
Definition persistToStorage (s : State) : State :=
  match faults s with
  | true :: rest =>
      {| bookmarks := bookmarks s; initialized := initialized s;
         stored := stored s; faults := rest |}
  | f =>
      {| bookmarks := bookmarks s; initialized := initialized s;
         stored := Some (bookmarks s); faults := tl f |}
  end.

Definition with_bookmarks (m : JsMap Bookmark) (s : State) : State :=
  {| bookmarks := m; initialized := initialized s;
     stored := stored s; faults := faults s |}.

Definition add (now : Z) (t u : string) (s : State) : State :=
  let bookmark := {| title := t; url := u; timestamp := now |} in
  persistToStorage (with_bookmarks (map_set u bookmark (bookmarks s)) s).

Definition remove (u : string) (s : State) : State :=
  persistToStorage (with_bookmarks (map_delete u (bookmarks s)) s).

(** The comparator of [getAll]: [b.timestamp - a.timestamp]. *)
Definition newest_first (a b : Bookmark) : Z := timestamp b - timestamp a.

Definition getAll (s : State) : list Bookmark :=
  array_sort newest_first (List.map snd (bookmarks s)).

End BookmarkManager.

(** ** fetchExchangeRates (content.js) *)

Module ExchangeRates.

(** What [response.json()] gives: a rejection, [null], or a value whose
    [cny] member is a table or is missing. *)
Inductive RateBody : Type :=
| BodyUnparsable
| BodyNull
| BodyData (cny : option (JsMap float)).

(** What [fetch(url)] gives: a rejection, or a response with its [ok]
    flag. *)
Inductive RateResponse : Type :=
| FetchFailed
| Answered (ok : bool) (body : RateBody).

Definition urls : list string :=
  [ "https://cdn.jsdelivr.net/npm/@fawazahmed0/currency-api@latest/v1/currencies/cny.json";
    "https://latest.currency-api.pages.dev/v1/currencies/cny.json" ]%string.

Definition updateInterval : Z := 1 * 60 * 60 * 1000.

(** The test at the head of [fetchExchangeRates]. *)
Definition is_fresh (now : Z) (cache : CurrencyCache) : bool :=
  match rates cache, lastUpdate cache with
  | Some _, Some t => negb (t =? 0) && (now - t <? updateInterval)
  | _, _ => false
  end.

(** The [for] loop over the sources: every failure inside the [try], and
    a response that is not [ok], moves on to the next source. *)
Fixpoint try_sources (net : string -> RateResponse) (now : Z)
  (sources : list string) (cache : CurrencyCache)
  : Completion (option (JsMap float)) * CurrencyCache :=
  match sources with
  | [] => (Throw "Failed to fetch exchange rates from all sources", cache)
  | u :: rest =>
      match net u with
      | Answered true (BodyData cny) =>
          (Normal cny, {| rates := cny; lastUpdate := Some now |})
      | _ => try_sources net now rest cache
      end
  end.

Definition fetchExchangeRates (net : string -> RateResponse) (now : Z)
  (cache : CurrencyCache) : Completion (option (JsMap float)) * CurrencyCache :=
  if is_fresh now cache then (Normal (rates cache), cache)
  else try_sources net now urls cache.

End ExchangeRates.

(** ** The quick-buy link (content.js) *)

Module QuickBuy.

(** A template literal prints an absent platform as 'undefined' and an
    absent product id as 'null'. *)
Definition show_platform (p : option string) : string :=
  match p with Some s => s | None => "undefined"%string end.

Definition show_id (i : option string) : string :=
  match i with Some s => s | None => "null"%string end.

Definition is_platform (p : option string) (name : string) : bool :=
  match p with Some s => String.eqb s name | None => false end.

Record AgentInfo : Type :=
  { agent_baseUrl : string;
    formatUrl : option (option string -> option string -> string) }.

Definition PLATFORM_CONFIG_agents : JsMap AgentInfo :=
  [ ("superbuy"%string,
     {| agent_baseUrl := "https://www.superbuy.com/en/page/buy/?nTag=Home-search&from=search-input&url=";
        formatUrl := None |});
    ("allchinabuy"%string,
     {| agent_baseUrl := "https://www.allchinabuy.com/en/page/buy/?nTag=Home-search&from=search-input&url=";
        formatUrl := None |});
    ("cssbuy"%string,
     {| agent_baseUrl := "https://www.cssbuy.com/item-";
        formatUrl := Some (fun platform productId =>
          if is_platform platform "weidian"
          then ("https://www.cssbuy.com/item-micro-" ++ show_id productId ++ ".html")%string
          else ("https://www.cssbuy.com/item-" ++ show_id productId ++ ".html")%string) |});
    ("cnfans"%string,
     {| agent_baseUrl := "https://cnfans.com/product/";
        formatUrl := Some (fun platform productId =>
          ("https://cnfans.com/product/?shop_type=" ++ show_platform platform
             ++ "&id=" ++ show_id productId)%string) |});
    ("mulebuy"%string,
     {| agent_baseUrl := "https://mulebuy.com/product/";
        formatUrl := Some (fun platform productId =>
          ("https://cnfans.com/product/?shop_type=" ++ show_platform platform
             ++ "&id=" ++ show_id productId)%string) |});
    ("hoobuy"%string,
     {| agent_baseUrl := "https://hoobuy.com/product/";
        formatUrl := Some (fun platform productId =>
          let platformId := if is_platform platform "taobao"
                            then "1"%string else "2"%string in
          ("https://hoobuy.com/product/" ++ platformId ++ "/"
             ++ show_id productId)%string) |}) ].

(** [encodeURIComponent] on a string given as its UTF-8 bytes: letters,
    digits and [- _ . ! ~ * ' ( )] stay, every other byte becomes [%XX]. *)
Definition uri_unreserved (c : ascii) : bool :=
  let n := nat_of_ascii c in
  ((Nat.leb 65 n && Nat.leb n 90) || (Nat.leb 97 n && Nat.leb n 122)
   || (Nat.leb 48 n && Nat.leb n 57)
   || existsb (Nat.eqb n) [45; 95; 46; 33; 126; 42; 39; 40; 41]%nat)%bool.

Definition hex_digit (n : nat) : ascii :=
  if Nat.ltb n 10 then ascii_of_nat (48 + n) else ascii_of_nat (55 + n).

Definition percent_encode (c : ascii) : string :=
  let n := nat_of_ascii c in
  String "%" (String (hex_digit (n / 16)) (String (hex_digit (n mod 16)) EmptyString)).

Fixpoint encodeURIComponent (s : string) : string :=
  match s with
  | EmptyString => EmptyString
  | String c s' =>
      ((if uri_unreserved c then String c EmptyString else percent_encode c)
         ++ encodeURIComponent s')%string
  end.

(** The click handler of the quick-buy button: the address it opens, if
    any.  An agent that is not configured makes [agent.formatUrl] throw. *)
Definition quickBuy (br : Browser) (preferredAgent : string)
  (currentProductDetails : option ResolvedPrice) : Completion (option string) :=
  match currentProductDetails with
  | None => Normal None
  | Some details =>
      match link (r_data details) with
      | None => Normal None
      | Some l =>
          if String.eqb l EmptyString then Normal None
          else
            match map_get preferredAgent PLATFORM_CONFIG_agents with
            | None => Throw "TypeError: cannot read 'formatUrl' of undefined"
            | Some agent =>
                match formatUrl agent with
                | Some format =>
                    let productId :=
                      if is_platform (r_platform details) "weidian"
                      then extractWeidianId br ("https://" ++ l)%string
                      else extractTaobaoId br ("https://" ++ l)%string in
                    Normal (Some (format (r_platform details) productId))
                | None =>
                    let encodedUrl := encodeURIComponent ("https://" ++ l)%string in
                    Normal (Some (agent_baseUrl agent ++ encodedUrl)%string)
                end
            end
      end
  end.

End QuickBuy.

(** ** The background page (the fetchPrice listener) *)

Module Background.

(** [response.text()]: the body, or a rejection with its message. *)
Inductive BodyRead : Type :=
| BodyText (html : string)
| BodyError (message : string).

(** What [fetch(request.url, ...)] gives: a rejection with its message,
    or a response with [ok], [status] and its body. *)
Inductive FetchOutcome : Type :=
| NetworkError (message : string)
| Response (ok : bool) (status : nat) (text : BodyRead).

Record PriceResponse : Type :=
  { success : bool; body : option string; error : option string }.

(** The listener: what is passed to [sendResponse], if anything. *)
Definition onMessage (fetch : string -> FetchOutcome) (type u : string)
  : option PriceResponse :=
  if String.eqb type "fetchPrice" then
    match fetch u with
    | NetworkError m =>
        Some {| success := false; body := None; error := Some m |}
    | Response false status _ =>
        Some {| success := false; body := None;
                error := Some ("HTTP error! status: "
                               ++ NilEmpty.string_of_uint (Nat.to_uint status))%string |}
    | Response true _ (BodyError m) =>
        Some {| success := false; body := None; error := Some m |}
    | Response true _ (BodyText html) =>
        Some {| success := true; body := Some html; error := None |}
    end
  else None.

(** The content script's view of that answer; [price_of] reads the text
    of the price node out of the page, if there is one. *)
Definition to_reply (price_of : string -> option string)
  (r : option PriceResponse) : PriceReply :=
  match r with
  | None => Reply false None
  | Some resp =>
      Reply (success resp)
            (match body resp with Some html => price_of html | None => None end)
  end.

End Background.

(** ** The read-through resolution of processProduct (content.js) *)

Module ProcessProduct.

(** A small integer as a JavaScript number. *)
Definition number_of_Z (z : Z) : float :=
  SF2Prim (match z with
           | Z0 => S754_zero false
           | Zpos p => S754_finite false p 0
           | Zneg p => S754_finite true p 0
           end).

Definition js_of_link (l : option string) : JsValue :=
  match l with Some s => JsStr s | None => JsNull end.

(** The object that [fetchProductDetails] resolved to, as the value that
    is handed to [productCache.set]. *)
Definition js_of_details (r : ResolvedPrice) : JsValue :=
  let data_members :=
    [ ("price"%string, JsStr (price (r_data r)));
      ("link"%string, js_of_link (link (r_data r))) ] in
  JsObj (match r_platform r with
         | Some p => [("platform"%string, JsStr p)]
         | None => []
         end
         ++ data_members
         ++ match r_priority r with
            | Some z => [("priority"%string, JsNum (number_of_Z z))]
            | None => []
            end).

(** The first lines of [fetchAndUpdatePrice]: the cache is asked unless
    [useCache] is off, and a result fetched from the network is written
    to the cache. *)
Definition resolve (br : Browser) (now : Z) (useCache : bool) (href : string)
  : Async JsValue :=
  cached <- (if useCache then PersistentCache.get now href else ret JsNull) ;;
  if truthy cached then ret cached
  else
    match fetchProductDetails br href with
    | Throw e => throw e
    | Normal r =>
        let productDetails := js_of_details r in
        PersistentCache.set now href productDetails ;;;
        ret productDetails
    end.

End ProcessProduct.

(** ** Sample data *)

Module Sample.

Definition t0 : Z := 1700000000000.
Definition day : Z := 24 * 60 * 60 * 1000.

Definition payload (p : string) : JsValue :=
  JsObj [("price"%string, JsStr p);
         ("link"%string, JsStr "item.taobao.com/item.htm?id=1")].

Definition entry (p : string) (t la : Z) : CacheEntry :=
  {| data := payload p; timestamp := t; lastAccessed := la |}.

(** Three entries; at [t0] the second one is eight days old. *)
Definition three_entries : JsMap CacheEntry :=
  [ ("https://x.yupoo.com/albums/1"%string, entry "128" t0 (t0 + 5));
    ("https://x.yupoo.com/albums/2"%string, entry "64" (t0 - 8 * day) (t0 - 8 * day));
    ("https://x.yupoo.com/albums/3"%string, entry "32" (t0 - day) (t0 - 100)) ].

Definition album (i : nat) : string :=
  ("https://x.yupoo.com/albums/" ++ NilEmpty.string_of_uint (Nat.to_uint i))%string.

(** 1002 valid entries with pairwise different access times; albums 0 and
    325 are the least recently read ones. *)
Definition crowded : JsMap CacheEntry :=
  List.map (fun i => (album i, entry "1" t0 (t0 + Z.of_nat ((i * 37) mod 1002))))
           (seq 0 1002).

Definition empty_storage : Storage :=
  {| productCache := None; cacheMetadata := None |}.

(** Entries stored under an older schema version. *)
Definition stale_storage : Storage :=
  {| productCache := Some three_entries;
     cacheMetadata := Some {| md_version := JsStr "0.9.0"; lastCleanup := t0 |} |}.

Definition current_storage : Storage :=
  {| productCache := Some three_entries;
     cacheMetadata := Some {| md_version := JsStr "1.0.0"; lastCleanup := t0 |} |}.

(** A cache in use, and a cache as the constructor makes it. *)
Definition running (d : JsMap CacheEntry) (s : Storage) (f : list bool) : World :=
  {| this_data := d; this_initialized := true; local := s; faults := f;
     alerts := [] |}.

Definition fresh (s : Storage) (f : list bool) : World :=
  {| this_data := []; this_initialized := false; local := s; faults := f;
     alerts := [] |}.

(** Import files: one of another schema version, one without [version]
    and [items], one of the running version without [items]. *)
Definition file_other_version : ImportData :=
  {| file_version := JsStr "0.9.0"; file_items := Some [] |}.

Definition file_without_fields : ImportData :=
  {| file_version := JsUndefined; file_items := None |}.

Definition file_without_items : ImportData :=
  {| file_version := JsStr "1.0.0"; file_items := None |}.

(** The [prices] object of the selection example: taobao has no price,
    weidian has a price and a link. *)
Definition prices_weidian_only : JsMap PlatformPrice :=
  [ ("taobao"%string, unavailable);
    ("weidian"%string,
     {| price := "10"; link := Some "weidian.com/item.html?itemID=7"%string |}) ].

(** A browser whose page fetch loses the race to the timer. *)
Definition slow_browser : Browser :=
  {| fetch_page := fun _ => RaceTimeout;
     extractTaobaoId := fun _ => None;
     extractWeidianId := fun _ => None;
     sendMessage := fun _ => SendRejected |}.

(** A browser that finds a taobao link on the page and whose price lookup
    is rejected. *)
Definition lookup_fails_browser : Browser :=
  {| fetch_page := fun _ => PageRead (Some "item.taobao.com/item.htm?id=1"%string) None;
     extractTaobaoId := fun _ => Some "1"%string;
     extractWeidianId := fun _ => None;
     sendMessage := fun _ => SendRejected |}.

End Sample.

(** ** Definitions of the statements and more sample data *)

Definition sample_bookmarks : BookmarkManager.State :=
  {| BookmarkManager.bookmarks :=
       [ ("https://x.yupoo.com/albums/1"%string,
          {| BookmarkManager.title := "Shoes";
             BookmarkManager.url := "https://x.yupoo.com/albums/1";
             BookmarkManager.timestamp := 1700000000000 |});
         ("https://x.yupoo.com/albums/2"%string,
          {| BookmarkManager.title := "Bag";
             BookmarkManager.url := "https://x.yupoo.com/albums/2";
             BookmarkManager.timestamp := 1700000005000 |}) ];
     BookmarkManager.initialized := true;
     BookmarkManager.stored := None;
     BookmarkManager.faults := [] |}.

(** A response that ends the loop: [ok], with a body that is not [null]. *)
Definition usable (r : ExchangeRates.RateResponse) : bool :=
  match r with
  | ExchangeRates.Answered true (ExchangeRates.BodyData _) => true
  | _ => false
  end.

Definition offline (u : string) : ExchangeRates.RateResponse :=
  ExchangeRates.FetchFailed.

Definition stale_rates : CurrencyCache :=
  {| rates := Some [("usd"%string, 0.14%float)];
     lastUpdate := Some 1700000000000 |}.

Definition first_source : string :=
  "https://cdn.jsdelivr.net/npm/@fawazahmed0/currency-api@latest/v1/currencies/cny.json".

Definition second_source : string :=
  "https://latest.currency-api.pages.dev/v1/currencies/cny.json".

(** The first source is down and the second one answers with a table. *)
Definition second_source_only (u : string) : ExchangeRates.RateResponse :=
  if String.eqb u second_source
  then ExchangeRates.Answered true
         (ExchangeRates.BodyData (Some [("usd"%string, 0.15%float)]))
  else ExchangeRates.FetchFailed.

Definition answers_without_cny (u : string) : ExchangeRates.RateResponse :=
  ExchangeRates.Answered true (ExchangeRates.BodyData None).






Definition not_found (u : string) : Background.FetchOutcome :=
  Background.Response false 404 (Background.BodyText "Not Found").

Definition no_price_node (html : string) : option string := None.

Definition proxied_browser (fetch : string -> Background.FetchOutcome) : Browser :=
  {| fetch_page := fun _ => PageRead (Some "item.taobao.com/item.htm?id=1"%string) None;
     extractTaobaoId := fun _ => Some "1"%string;
     extractWeidianId := fun _ => None;
     sendMessage := fun u =>
       Background.to_reply no_price_node
         (Background.onMessage fetch "fetchPrice" u) |}.

(** * Properties *)

(** ** Facts about the library functions *)

Section SortFacts.
Context {A : Type} (cmp : A -> A -> Z).
Hypothesis cmp_total : forall a b, 0 < cmp a b -> cmp b a <= 0.
Hypothesis cmp_trans :
  forall a b c, cmp a b <= 0 -> cmp b c <= 0 -> cmp a c <= 0.

Let before (a b : A) : Prop := cmp a b <= 0.

Lemma sort_insert_perm (x : A) (l : list A) :
  Permutation (x :: l) (sort_insert cmp x l).
Proof.
  induction l as [|y l IH]; simpl.
  - apply Permutation_refl.
  - destruct (cmp x y <=? 0).
    + apply Permutation_refl.
    + eapply perm_trans; [apply perm_swap|].
      apply perm_skip, IH.
Qed.

Lemma array_sort_perm (l : list A) : Permutation l (array_sort cmp l).
Proof.
  induction l as [|x l IH]; simpl.
  - apply perm_nil.
  - eapply perm_trans; [apply perm_skip, IH|].
    apply sort_insert_perm.
Qed.

Lemma array_sort_length (l : list A) :
  List.length (array_sort cmp l) = List.length l.
Proof. symmetry. apply Permutation_length, array_sort_perm. Qed.

Lemma sort_insert_sorted (x : A) (l : list A) :
  StronglySorted before l -> StronglySorted before (sort_insert cmp x l).
Proof.
  induction 1 as [|y l Hs IH Hall]; simpl.
  - constructor; constructor.
  - destruct (Z.leb_spec (cmp x y) 0) as [Hle|Hgt].
    + constructor.
      * constructor; assumption.
      * constructor; [exact Hle|].
        rewrite Forall_forall in Hall |- *.
        intros z Hz. apply (cmp_trans x y z Hle), Hall, Hz.
    + constructor; [exact IH|].
      rewrite Forall_forall in Hall |- *.
      intros z Hz.
      apply (Permutation_in _ (Permutation_sym (sort_insert_perm x l))) in Hz.
      destruct Hz as [<-|Hz].
      * apply cmp_total, Hgt.
      * apply Hall, Hz.
Qed.

Lemma array_sort_sorted (l : list A) : StronglySorted before (array_sort cmp l).
Proof.
  induction l as [|x l IH]; simpl.
  - constructor.
  - apply sort_insert_sorted, IH.
Qed.

(** In a sorted array everything in a front part comes before everything
    in the part behind it. *)
Lemma sorted_app_before (l1 l2 : list A) :
  StronglySorted before (l1 ++ l2) ->
  forall x y, In x l1 -> In y l2 -> cmp x y <= 0.
Proof.
  induction l1 as [|a l1 IH]; simpl; intros Hs x y Hx Hy.
  - contradiction.
  - apply StronglySorted_inv in Hs. destruct Hs as [Hs Hall].
    destruct Hx as [<-|Hx].
    + rewrite Forall_forall in Hall. apply Hall, in_or_app. right. exact Hy.
    + apply (IH Hs x y Hx Hy).
Qed.
End SortFacts.

Section MapFacts.
Context {V : Type}.
Implicit Types (m : JsMap V) (k : string) (v : V).

Lemma map_get_set_same k v m : map_get k (map_set k v m) = Some v.
Proof.
  induction m as [|[k' v'] m IH]; simpl.
  - now rewrite String.eqb_refl.
  - destruct (String.eqb k k') eqn:E; simpl.
    + now rewrite String.eqb_refl.
    + now rewrite E.
Qed.

Lemma map_get_In k v m : map_get k m = Some v -> In (k, v) m.
Proof.
  induction m as [|[k' v'] m IH]; simpl; [discriminate|].
  destruct (String.eqb_spec k k') as [->|Hne]; intros H.
  - left. now inversion H.
  - right. now apply IH.
Qed.

Lemma map_get_None k m : ~ In k (map_keys m) -> map_get k m = None.
Proof.
  induction m as [|[k' v'] m IH]; simpl; intros H; [reflexivity|].
  destruct (String.eqb_spec k k') as [->|Hne].
  - exfalso. apply H. now left.
  - apply IH. intros Hin. apply H. now right.
Qed.

Lemma map_delete_incl k m : incl (map_delete k m) m.
Proof.
  induction m as [|[k' v'] m IH]; simpl; intros x Hx; [exact Hx|].
  destruct (String.eqb k k').
  - now right.
  - destruct Hx as [<-|Hx]; [now left|right; now apply IH].
Qed.

(** Deleting the key of an entry of a well-formed map takes out that
    entry and nothing else. *)
Lemma map_delete_perm k v m :
  map_wf m -> In (k, v) m -> Permutation m ((k, v) :: map_delete k m).
Proof.
  unfold map_wf, map_keys.
  induction m as [|[k' v'] m IH]; simpl; intros Hnd Hin; [contradiction|].
  apply NoDup_cons_iff in Hnd. destruct Hnd as [Hnotin Hnd].
  destruct (String.eqb_spec k k') as [->|Hne].
  - destruct Hin as [Heq|Hin].
    + inversion Heq; subst. apply Permutation_refl.
    + exfalso. apply Hnotin. apply (in_map fst) in Hin. exact Hin.
  - destruct Hin as [Heq|Hin]; [inversion Heq; congruence|].
    eapply perm_trans; [apply perm_skip, (IH Hnd Hin)|].
    apply perm_swap.
Qed.

Lemma map_delete_app k v (pre rest : JsMap V) :
  ~ In k (map_keys pre) ->
  map_delete k (pre ++ (k, v) :: rest) = pre ++ rest.
Proof.
  induction pre as [|[k' v'] pre IH]; simpl; intros Hnotin.
  - now rewrite String.eqb_refl.
  - destruct (String.eqb_spec k k') as [->|Hne].
    + exfalso. apply Hnotin. now left.
    + f_equal. apply IH. intros Hin. apply Hnotin. now right.
Qed.

Lemma map_wf_perm m m' : Permutation m m' -> map_wf m -> map_wf m'.
Proof.
  unfold map_wf, map_keys. intros Hp.
  apply Permutation_NoDup, Permutation_map, Hp.
Qed.

Lemma map_wf_filter (f : string * V -> bool) m : map_wf m -> map_wf (filter f m).
Proof.
  unfold map_wf, map_keys.
  induction m as [|x m IH]; simpl; intros Hnd; [constructor|].
  apply NoDup_cons_iff in Hnd. destruct Hnd as [Hnotin Hnd].
  destruct (f x); simpl; [|now apply IH].
  constructor; [|now apply IH].
  intros Hin. apply Hnotin.
  apply in_map_iff in Hin. destruct Hin as [y [Hy Hin]].
  apply filter_In in Hin. apply in_map_iff. exists y. tauto.
Qed.

Lemma map_wf_unique k v v' m :
  map_wf m -> In (k, v) m -> In (k, v') m -> v = v'.
Proof.
  unfold map_wf, map_keys.
  induction m as [|[k0 v0] m IH]; simpl; intros Hnd H1 H2; [contradiction|].
  apply NoDup_cons_iff in Hnd. destruct Hnd as [Hnotin Hnd].
  destruct H1 as [E1|H1], H2 as [E2|H2].
  - congruence.
  - inversion E1; subst. exfalso. apply Hnotin.
    apply (in_map fst) in H2. exact H2.
  - inversion E2; subst. exfalso. apply Hnotin.
    apply (in_map fst) in H1. exact H1.
  - now apply IH.
Qed.
End MapFacts.

(** ** Facts about the cache *)

Module CacheFacts.
Import PersistentCache.

Lemma maxAge_is_seven_days : maxAge CACHE_CONFIG = 604800000.
Proof. reflexivity. Qed.

Lemma isValidCacheEntry_true (now : Z) (e : CacheEntry) :
  isValidCacheEntry now e = true <->
  timestamp e <> 0 /\ now - timestamp e < maxAge CACHE_CONFIG
  /\ truthy (data e) = true.
Proof.
  unfold isValidCacheEntry.
  rewrite !andb_true_iff, negb_true_iff, Z.eqb_neq, Z.ltb_lt. tauto.
Qed.

Lemma by_lastAccessed_desc_total (a b : string * CacheEntry) :
  0 < by_lastAccessed_desc a b -> by_lastAccessed_desc b a <= 0.
Proof. unfold by_lastAccessed_desc. lia. Qed.

Lemma by_lastAccessed_desc_trans (a b c : string * CacheEntry) :
  by_lastAccessed_desc a b <= 0 -> by_lastAccessed_desc b c <= 0 ->
  by_lastAccessed_desc a c <= 0.
Proof. unfold by_lastAccessed_desc. lia. Qed.

(** On a well-formed map the first loop of [cleanup] is a filter. *)
Lemma purge_invalid_filter (now : Z) (entries pre : JsMap CacheEntry) (d : nat) :
  map_wf (pre ++ entries) ->
  purge_invalid now entries (pre ++ entries, d) =
    (pre ++ filter (valid_at now) entries,
     (d + (List.length entries - List.length (filter (valid_at now) entries)))%nat).
Proof.
  revert pre d.
  induction entries as [|[k e] entries IH]; intros pre d Hwf.
  - simpl. now rewrite Nat.add_0_r.
  - assert (Hf : filter (valid_at now) ((k, e) :: entries) =
                 if isValidCacheEntry now e
                 then (k, e) :: filter (valid_at now) entries
                 else filter (valid_at now) entries) by reflexivity.
    rewrite Hf. cbn [purge_invalid].
    destruct (isValidCacheEntry now e) eqn:Hv.
    + assert (Happ : pre ++ (k, e) :: entries = (pre ++ [(k, e)]) ++ entries)
        by (now rewrite <- app_assoc).
      rewrite Happ in Hwf |- *.
      rewrite (IH _ d Hwf). rewrite <- app_assoc. reflexivity.
    + cbn [fst snd].
      assert (Hnotin : ~ In k (map_keys pre)).
      { unfold map_wf, map_keys in Hwf. rewrite map_app in Hwf. simpl in Hwf.
        apply NoDup_remove_2 in Hwf. intros Hin. apply Hwf.
        apply in_or_app. now left. }
      rewrite (map_delete_app k e pre entries Hnotin).
      assert (Hwf' : map_wf (pre ++ entries)).
      { unfold map_wf, map_keys in *. rewrite map_app in *. simpl in Hwf.
        now apply NoDup_remove_1 in Hwf. }
      etransitivity; [exact (IH pre (S d) Hwf')|]. f_equal.
      pose proof (filter_length_le (valid_at now) entries).
      cbn [List.length]. lia.
Qed.

Lemma purge_invalid_wf (now : Z) (m : JsMap CacheEntry) :
  map_wf m ->
  purge_invalid now m (m, 0%nat) =
    (filter (valid_at now) m,
     (List.length m - List.length (filter (valid_at now) m))%nat).
Proof. intros Hwf. apply (purge_invalid_filter now m [] 0 Hwf). Qed.

(** The [while] loop on a well-formed map whose entries are the ones of
    [popped]: it never pops an empty array, it takes out a front part of
    [popped] and leaves the part behind it, within the capacity. *)
Lemma evict_spec (popped : list (string * CacheEntry)) :
  forall (m : JsMap CacheEntry) (d : nat),
    map_wf m -> Permutation popped m ->
    exists evicted kept m',
      popped = evicted ++ kept
      /\ evict popped (m, d) = (Normal tt, (m', (d + List.length evicted)%nat))
      /\ Permutation kept m'
      /\ map_size m' <= maxItems CACHE_CONFIG
      /\ (map_size m <= maxItems CACHE_CONFIG -> evicted = []).
Proof.
  induction popped as [|[k e] popped IH]; intros m d Hwf Hperm.
  - apply Permutation_nil in Hperm. subst m.
    exists [], [], []. simpl. rewrite Nat.add_0_r.
    repeat split; auto. unfold map_size; simpl; lia.
  - assert (Hstep : evict ((k, e) :: popped) (m, d) =
                    if maxItems CACHE_CONFIG <? map_size m
                    then evict popped (map_delete k m, S d)
                    else (Normal tt, (m, d))) by reflexivity.
    destruct (Z.ltb_spec (maxItems CACHE_CONFIG) (map_size m)) as [Hbig|Hok].
    + assert (Hin : In (k, e) m).
      { apply (Permutation_in _ Hperm). now left. }
      pose proof (map_delete_perm k e m Hwf Hin) as Hdel.
      assert (Hperm' : Permutation popped (map_delete k m)).
      { apply (Permutation_cons_inv (a := (k, e))).
        eapply perm_trans; [exact Hperm | exact Hdel]. }
      assert (Hwf' : map_wf (map_delete k m)).
      { pose proof (map_wf_perm _ _ Hdel Hwf) as H.
        unfold map_wf, map_keys in H. simpl in H.
        now apply NoDup_cons_iff in H. }
      destruct (IH (map_delete k m) (S d) Hwf' Hperm')
        as (evicted & kept & m' & Hsplit & Hev & Hkept & Hsize & _).
      exists ((k, e) :: evicted), kept, m'.
      rewrite Hstep, Hev, Hsplit. cbn [List.length].
      replace (S d + List.length evicted)%nat
        with (d + S (List.length evicted))%nat by lia.
      repeat split; auto. lia.
    + exists [], ((k, e) :: popped), m.
      rewrite Hstep. cbn [List.length]. rewrite Nat.add_0_r.
      repeat split; auto.
Qed.

(** What [sweep] leaves of a well-formed map. *)
Lemma sweep_spec (now : Z) (m : JsMap CacheEntry) :
  map_wf m ->
  exists m' deleted,
    sweep now m = (Normal tt, (m', deleted))
    /\ map_wf m'
    /\ map_size m' <= maxItems CACHE_CONFIG
    /\ incl m' (filter (valid_at now) m)
    /\ (forall x y, In x (filter (valid_at now) m) -> ~ In x m' -> In y m' ->
          lastAccessed (snd x) <= lastAccessed (snd y))
    /\ (map_size (filter (valid_at now) m) <= maxItems CACHE_CONFIG ->
          m' = filter (valid_at now) m
          /\ deleted = (List.length m - List.length m')%nat).
Proof.
  intros Hwf. unfold sweep. rewrite (purge_invalid_wf now m Hwf). simpl fst.
  set (valid := filter (valid_at now) m).
  assert (Hwfv : map_wf valid) by (apply map_wf_filter, Hwf).
  destruct (Z.ltb_spec (maxItems CACHE_CONFIG) (map_size valid)) as [Hbig|Hok].
  - set (sorted := array_sort by_lastAccessed_desc valid).
    assert (Hperm : Permutation (rev sorted) valid).
    { eapply perm_trans; [apply Permutation_sym, Permutation_rev|].
      apply Permutation_sym, array_sort_perm. }
    destruct (evict_spec (rev sorted) valid
                (List.length m - List.length valid)%nat Hwfv Hperm)
      as (evicted & kept & m' & Hsplit & Hev & Hkept & Hsize & _).
    exists m', (List.length m - List.length valid + List.length evicted)%nat.
    split; [exact Hev|].
    assert (Hsub : incl m' valid).
    { intros x Hx. apply (Permutation_in _ Hperm). rewrite Hsplit.
      apply in_or_app. right.
      apply (Permutation_in _ (Permutation_sym Hkept)), Hx. }
    repeat split; auto.
    + apply (map_wf_perm kept m' Hkept).
      apply (map_wf_perm _ _ (Permutation_sym Hperm)) in Hwfv.
      rewrite Hsplit in Hwfv. unfold map_wf, map_keys in *.
      rewrite map_app in Hwfv. now apply NoDup_app_remove_l in Hwfv.
    + intros x y Hx Hnot Hy.
      assert (Hxe : In x evicted).
      { apply (Permutation_in _ (Permutation_sym Hperm)) in Hx.
        rewrite Hsplit in Hx. apply in_app_or in Hx.
        destruct Hx as [Hx|Hx]; [exact Hx|].
        exfalso. apply Hnot, (Permutation_in _ Hkept), Hx. }
      assert (Hyk : In y kept)
        by (apply (Permutation_in _ (Permutation_sym Hkept)), Hy).
      assert (Hsorted : sorted = rev kept ++ rev evicted).
      { rewrite <- rev_app_distr, <- Hsplit. now rewrite rev_involutive. }
      pose proof (array_sort_sorted by_lastAccessed_desc
                    by_lastAccessed_desc_total by_lastAccessed_desc_trans valid)
        as Hss.
      fold sorted in Hss. rewrite Hsorted in Hss.
      pose proof (sorted_app_before by_lastAccessed_desc _ _ Hss y x) as Hle.
      unfold by_lastAccessed_desc in Hle.
      rewrite <- !in_rev in Hle. specialize (Hle Hyk Hxe). lia.
    + lia.
    + lia.
  - exists valid, (List.length m - List.length valid)%nat.
    repeat split; auto.
    + apply incl_refl.
    + intros x y Hx Hnot. contradiction.
Qed.

Lemma persistToStorage_total (w : World) :
  exists w', persistToStorage w = (Normal tt, w')
    /\ this_data w' = this_data w
    /\ this_initialized w' = this_initialized w
    /\ alerts w' = alerts w
    /\ faults w' = tl (faults w).
Proof.
  unfold persistToStorage, try_catch, bind, read, storage_set_productCache,
    storage_call, ret.
  destruct (faults w) as [|[|] rest] eqn:Hf; simpl;
    eexists; repeat split; simpl; auto.
Qed.

Lemma with_data_same (w : World) : with_data (this_data w) w = w.
Proof. now destruct w. Qed.

End CacheFacts.

(** ** The cache: reads, cleanup and its idempotence *)

Import PersistentCache CacheFacts.

Lemma get_eq (now : Z) (key : string) (w : World) :
  get now key w =
    match map_get key (this_data w) with
    | Some entry =>
        if isValidCacheEntry now entry
        then (Normal (data entry),
              with_data (map_set key (touch now entry) (this_data w)) w)
        else (Normal JsNull, w)
    | None => (Normal JsNull, w)
    end.
Proof.
  unfold get, waitForInitialization, bind, read, ret, modify.
  destruct (map_get key (this_data w)) as [entry|]; [|reflexivity].
  now destruct (isValidCacheEntry now entry).
Qed.

(** C1.  [get(k)] never throws.  It returns a payload other than [null]
    only when the map holds an entry for [k] whose age [now - timestamp] is
    below [maxAge], which is 7 days, and then the payload is that entry's;
    for an entry whose age has reached [maxAge], and for a key without
    entry, it returns [null]. *)
Theorem C1_get_respects_maxAge :
  forall (now : Z) (k : string) (w : World),
    maxAge CACHE_CONFIG = 7 * 24 * 60 * 60 * 1000
    /\ exists (v : JsValue) (w' : World),
         get now k w = (Normal v, w')
         /\ (v <> JsNull ->
             exists e, map_get k (this_data w) = Some e
                       /\ v = data e
                       /\ now - timestamp e < maxAge CACHE_CONFIG)
         /\ (forall e, map_get k (this_data w) = Some e ->
                       maxAge CACHE_CONFIG <= now - timestamp e -> v = JsNull)
         /\ (map_get k (this_data w) = None -> v = JsNull).
Proof.
  intros now k w. split; [reflexivity|].
  rewrite get_eq.
  destruct (map_get k (this_data w)) as [entry|] eqn:Hget.
  - destruct (isValidCacheEntry now entry) eqn:Hv.
    + apply isValidCacheEntry_true in Hv. destruct Hv as (_ & Hage & _).
      eexists; eexists; split; [reflexivity|].
      repeat split.
      * intros _. exists entry. auto.
      * intros e He Hold. inversion He; subst. lia.
      * discriminate.
    + eexists; eexists; split; [reflexivity|].
      repeat split; try reflexivity; intros; try reflexivity.
      now contradiction H.
  - eexists; eexists; split; [reflexivity|].
    repeat split; intros; try reflexivity; try discriminate.
    now contradiction H.
Qed.

(** An entry written by [set] at [t0] and not written again is returned
    while it is younger than [maxAge], and is absent from then on. *)
Lemma set_then_get (t0 t1 : Z) (k : string) (v : JsValue) (w : World) :
  fst (get t1 k (snd (set t0 k v w))) =
    Normal (if isValidCacheEntry t1
                 {| data := v; timestamp := t0; lastAccessed := t0 |}
            then v else JsNull).
Proof.
  unfold set, waitForInitialization, bind, ret, modify.
  destruct (persistToStorage_total
              (with_data (map_set k {| data := v; timestamp := t0;
                                       lastAccessed := t0 |} (this_data w)) w))
    as (w' & Hp & Hd & _).
  rewrite Hp. simpl snd. rewrite get_eq, Hd. simpl this_data.
  rewrite map_get_set_same.
  now destruct (isValidCacheEntry t1 _).
Qed.

Lemma set_then_get_expired (t0 t1 : Z) (k : string) (v : JsValue) (w : World) :
  maxAge CACHE_CONFIG <= t1 - t0 ->
  fst (get t1 k (snd (set t0 k v w))) = Normal JsNull.
Proof.
  intros Hold. rewrite set_then_get.
  destruct (isValidCacheEntry t1 _) eqn:Hv; [|reflexivity].
  apply isValidCacheEntry_true in Hv. destruct Hv as (_ & Hage & _).
  cbn [timestamp] in Hage. lia.
Qed.

Lemma cleanup_of_sweep (now : Z) (w : World) (m' : JsMap CacheEntry) (deleted : nat) :
  sweep now (this_data w) = (Normal tt, (m', deleted)) ->
  exists w', cleanup now w = (Normal tt, w')
    /\ this_data w' = m'
    /\ this_initialized w' = this_initialized w
    /\ alerts w' = alerts w
    /\ (faults w = [] -> faults w' = [])
    /\ (deleted = 0%nat -> w' = with_data m' w).
Proof.
  intros Hs. unfold cleanup. rewrite Hs.
  destruct deleted as [|d]; simpl.
  - eexists; repeat split; auto.
  - destruct (persistToStorage_total (with_data m' w))
      as (w' & Hp & Hd & Hi & Ha & Hf).
    exists w'. rewrite Hp. repeat split; auto.
    + intros Hnil. rewrite Hf. simpl. now rewrite Hnil.
    + discriminate.
Qed.

(** C2.  On a map with distinct keys [cleanup()] completes, and leaves at
    most [maxItems] = 1000 entries, all of them entries that were valid
    before.  Every valid entry that it took out, which is what the capacity
    eviction removes, has a [lastAccessed] no greater than the one of every
    entry it kept. *)
Theorem C2_cleanup_capacity_lru :
  forall (now : Z) (w : World),
    map_wf (this_data w) ->
    exists w',
      cleanup now w = (Normal tt, w')
      /\ (List.length (this_data w') <= 1000)%nat
      /\ (forall k e, In (k, e) (this_data w') ->
            In (k, e) (this_data w) /\ isValidCacheEntry now e = true)
      /\ (forall k e k' e',
            In (k, e) (this_data w) -> isValidCacheEntry now e = true ->
            ~ In (k, e) (this_data w') ->
            In (k', e') (this_data w') ->
            lastAccessed e <= lastAccessed e').
Proof.
  intros now w Hwf.
  destruct (sweep_spec now (this_data w) Hwf)
    as (m' & deleted & Hs & _ & Hsize & Hsub & Hlru & _).
  destruct (cleanup_of_sweep now w m' deleted Hs) as (w' & Hc & Hd & _).
  exists w'. rewrite Hd. split; [exact Hc|]. split; [|split].
  - unfold map_size in Hsize. change (maxItems CACHE_CONFIG) with 1000 in Hsize. lia.
  - intros k e Hin. apply Hsub, filter_In in Hin. exact Hin.
  - intros k e k' e' Hin Hv Hout Hkept.
    apply (Hlru (k, e) (k', e')); auto.
    apply filter_In. split; [exact Hin | exact Hv].
Qed.

(** C8.  After a [cleanup()] at [now1], a second [cleanup()] at [now2],
    with no write in between and with no entry that was valid at [now1]
    invalid at [now2], deletes nothing: its [deleted] counter stays 0, and
    the cache, the storage and everything else are left as they were. *)
Theorem C8_cleanup_twice_deletes_nothing :
  forall (now1 now2 : Z) (w : World),
    map_wf (this_data w) ->
    (forall k e, In (k, e) (this_data w) ->
       isValidCacheEntry now1 e = true -> isValidCacheEntry now2 e = true) ->
    let w1 := snd (cleanup now1 w) in
    sweep now2 (this_data w1) = (Normal tt, (this_data w1, 0%nat))
    /\ cleanup now2 w1 = (Normal tt, w1).
Proof.
  intros now1 now2 w Hwf Hstill w1.
  destruct (sweep_spec now1 (this_data w) Hwf)
    as (m1 & d1 & Hs1 & Hwf1 & Hsize1 & Hsub1 & _).
  destruct (cleanup_of_sweep now1 w m1 d1 Hs1) as (w1' & Hc1 & Hd1 & _).
  assert (Hw1 : w1 = w1') by (unfold w1; now rewrite Hc1).
  rewrite Hw1, Hd1. clear w1 Hw1.
  assert (Hall : filter (valid_at now2) m1 = m1).
  { apply forallb_filter_id. apply forallb_forall. intros [k e] Hin.
    apply Hsub1, filter_In in Hin. destruct Hin as [Hin Hv].
    apply (Hstill k e Hin Hv). }
  destruct (sweep_spec now2 m1 Hwf1) as (m2 & d2 & Hs2 & _ & _ & _ & _ & Hsame).
  rewrite Hall in Hsame. destruct (Hsame Hsize1) as [-> ->].
  rewrite Nat.sub_diag in Hs2.
  split; [exact Hs2|].
  rewrite <- Hd1 in Hs2.
  destruct (cleanup_of_sweep now2 w1' _ _ Hs2)
    as (w2 & Hc2 & _ & _ & _ & _ & Hw2).
  rewrite Hc2, (Hw2 eq_refl), with_data_same. reflexivity.
Qed.

(** ** Initialization *)

Ltac run_async :=
  unfold initialize, constructor, clearCache, try_catch, bind, read, ret, modify,
    throw, storage_get_cacheMetadata, storage_get_productCache,
    storage_set_cacheMetadata, storage_remove_both, storage_call;
  cbn -[cleanup sweep Z.ltb strict_neq_string load_entries].

Ltac crunch := cbn -[cleanup sweep Z.ltb strict_neq_string load_entries].

Ltac next_fault f :=
  destruct f as [|[|] f]; cbn -[cleanup sweep Z.ltb strict_neq_string load_entries].

Lemma cleanup_empty (now : Z) (w : World) :
  this_data w = [] -> cleanup now w = (Normal tt, w).
Proof.
  intros Hd. unfold cleanup. rewrite Hd.
  change (sweep now []) with (Normal tt, (@nil (string * CacheEntry), 0%nat)).
  cbn. rewrite <- Hd. now rewrite with_data_same.
Qed.

(** C3.  When [initialize()] reads a stored metadata record whose version
    is not [CACHE_CONFIG.version], the cache is empty once it has completed,
    whatever entries were stored and whatever storage call fails afterwards.
    The stored entry map and metadata are removed before the entry map is
    read: unless that removal is rejected no entry map is left in the
    storage, and in a run without failures the metadata is written anew
    with the expected version. *)
Theorem C3_version_mismatch_empties_cache :
  forall (now : Z) (w : World) (md : CacheMetadata),
    this_initialized w = false ->
    cacheMetadata (local w) = Some md ->
    strict_neq_string (md_version md) (version CACHE_CONFIG) = true ->
    hd false (faults w) = false ->
    exists w',
      initialize now w = (Normal tt, w')
      /\ this_data w' = []
      /\ this_initialized w' = true
      /\ (nth 1 (faults w) false = false -> productCache (local w') = None)
      /\ (faults w = [] ->
          cacheMetadata (local w') =
            Some {| md_version := JsStr (version CACHE_CONFIG);
                    lastCleanup :=
                      if 24 * 60 * 60 * 1000 <? now - lastCleanup md
                      then now else lastCleanup md |}).
Proof.
  intros now w md Hinit Hmd Hneq Hread.
  destruct w as [d i [pc m] f a]. cbn in Hinit, Hmd, Hread. subst i m.
  cbn -[strict_neq_string] in Hneq.
  run_async.
  next_fault f; try discriminate Hread; rewrite Hneq; crunch.
  - destruct (86400000 <? now - lastCleanup md); crunch;
      try (rewrite cleanup_empty by reflexivity; crunch);
      (eexists; repeat split; intros; reflexivity).
  - next_fault f.
    + destruct (86400000 <? now - lastCleanup md); crunch;
        try (rewrite cleanup_empty by reflexivity; crunch);
        (eexists; repeat split; intros; try reflexivity; discriminate).
    + eexists; repeat split; intros; try reflexivity; discriminate.
    + next_fault f.
      * destruct (86400000 <? now - lastCleanup md); crunch;
          try (rewrite cleanup_empty by reflexivity; crunch);
          (eexists; repeat split; intros; try reflexivity; discriminate).
      * eexists; repeat split; intros; try reflexivity; discriminate.
      * destruct (86400000 <? now - lastCleanup md); crunch;
          try (rewrite cleanup_empty by reflexivity; crunch);
          next_fault f;
          (eexists; repeat split; intros; try reflexivity; discriminate).
Qed.

Lemma map_set_keys_in {V : Type} (k x : string) (v : V) (m : JsMap V) :
  In x (map_keys (map_set k v m)) -> x = k \/ In x (map_keys m).
Proof.
  induction m as [|[k' v'] m IH]; simpl.
  - intros [<-|[]]. now left.
  - destruct (String.eqb_spec k k') as [->|Hne]; simpl.
    + tauto.
    + intros [<-|Hin]; [tauto|]. destruct (IH Hin); tauto.
Qed.

Lemma map_set_wf {V : Type} (k : string) (v : V) (m : JsMap V) :
  map_wf m -> map_wf (map_set k v m).
Proof.
  unfold map_wf.
  induction m as [|[k' v'] m IH]; simpl; intros Hnd.
  - constructor; [intros []|constructor].
  - apply NoDup_cons_iff in Hnd. destruct Hnd as [Hnotin Hnd].
    destruct (String.eqb_spec k k') as [->|Hne]; simpl.
    + constructor; assumption.
    + constructor; [|now apply IH].
      intros Hin. apply map_set_keys_in in Hin. destruct Hin; congruence.
Qed.

Lemma load_entries_wf (now : Z) (stored : list (string * CacheEntry))
  (m : JsMap CacheEntry) :
  map_wf m -> map_wf (load_entries now stored m).
Proof.
  revert m. induction stored as [|[k e] stored IH]; simpl; intros m Hwf.
  - exact Hwf.
  - apply IH. destruct (isValidCacheEntry now e); [now apply map_set_wf|exact Hwf].
Qed.

Lemma cleanup_total (now : Z) (w : World) :
  map_wf (this_data w) ->
  exists w', cleanup now w = (Normal tt, w')
    /\ this_initialized w' = this_initialized w
    /\ (faults w = [] -> faults w' = []).
Proof.
  intros Hwf.
  destruct (sweep_spec now (this_data w) Hwf) as (m' & deleted & Hs & _).
  destruct (cleanup_of_sweep now w m' deleted Hs)
    as (w' & Hc & _ & Hi & _ & Hf & _).
  exists w'. auto.
Qed.

Lemma strict_neq_string_false (v : JsValue) (s : string) :
  strict_neq_string v s = false -> v = JsStr s.
Proof.
  destruct v; simpl; try discriminate.
  rewrite negb_false_iff. intros H. apply String.eqb_eq in H. now subst.
Qed.

Lemma bind_inv_normal {A B : Type} (m : Async A) (k : A -> Async B)
  (w w' : World) (b : B) :
  bind m k w = (Normal b, w') ->
  exists a w1, m w = (Normal a, w1) /\ k a w1 = (Normal b, w').
Proof.
  unfold bind. destruct (m w) as [[a|e] w1]; [|discriminate].
  intros H. now exists a, w1.
Qed.

(** Every run of [initialize] ends normally, with the cache marked as
    initialized. *)
Lemma initialize_marks_initialized (now : Z) (w : World) :
  exists w', initialize now w = (Normal tt, w') /\ this_initialized w' = true.
Proof.
  unfold initialize. unfold bind at 1. unfold read at 1.
  destruct (this_initialized w) eqn:Hinit.
  - exists w. split; [reflexivity | exact Hinit].
  - unfold try_catch.
    match goal with |- context [match ?body w with _ => _ end] =>
      destruct (body w) as [[[]|e] w1] eqn:Hbody end.
    + exists w1. split; [reflexivity|].
      repeat (apply bind_inv_normal in Hbody;
              destruct Hbody as (? & ? & _ & Hbody)).
      unfold modify in Hbody. inversion Hbody. reflexivity.
    + eexists. split; [reflexivity|]. reflexivity.
Qed.

(** C6, as the code has it.  Every run of [initialize()], a failing one
    included, ends normally with the cache marked as initialized.  A run on
    a cache that is not yet initialized and in which no storage call fails
    has also written the refreshed metadata record to the storage: the
    expected version, and the time of this run as [lastCleanup] when there
    was no record or the last cleanup was more than 24 hours ago. *)
Theorem C6_initialize_ends_initialized :
  forall (now : Z) (w : World),
    (exists w', initialize now w = (Normal tt, w') /\ this_initialized w' = true)
    /\ (this_initialized w = false -> map_wf (this_data w) -> faults w = [] ->
        exists md',
          cacheMetadata (local (snd (initialize now w))) = Some md'
          /\ md_version md' = JsStr (version CACHE_CONFIG)
          /\ lastCleanup md' =
               match cacheMetadata (local w) with
               | Some md =>
                   if 24 * 60 * 60 * 1000 <? now - lastCleanup md
                   then now else lastCleanup md
               | None => now
               end).
Proof.
  intros now w. split; [apply initialize_marks_initialized|].
  intros Hinit Hwf Hf.
  destruct w as [d i [pc m] f a]. cbn in Hinit, Hwf, Hf. subst i f.
  run_async.
  assert (Hclean : forall W, map_wf (this_data W) -> faults W = [] ->
            exists w', cleanup now W = (Normal tt, w') /\ faults w' = []).
  { intros W HW HF. destruct (cleanup_total now W HW) as (w' & Hc & _ & Hf').
    exists w'. auto. }
  destruct m as [md|]; crunch.
  - destruct (strict_neq_string (md_version md) "1.0.0") eqn:Hneq; crunch;
      destruct pc as [stored|]; crunch;
      destruct (86400000 <? now - lastCleanup md) eqn:Hday; crunch;
      try (match goal with |- context [cleanup now ?W] =>
             destruct (Hclean W) as (w' & Hc & Hf');
             [ try apply load_entries_wf; try exact Hwf; constructor
             | reflexivity
             | rewrite Hc; crunch; rewrite Hf'; crunch ]
           end);
      try (eexists; repeat split; reflexivity);
      apply strict_neq_string_false in Hneq;
      eexists; repeat split; try reflexivity; exact Hneq.
  - change (strict_neq_string (JsStr "1.0.0") "1.0.0") with false. crunch.
    replace (now - now) with 0 by lia.
    change (86400000 <? 0) with false. crunch.
    destruct pc as [stored|]; crunch; eexists; repeat split; reflexivity.
Qed.

(** ** Cache import *)

(** C7, as the code has it.  The popup import rejects a file without a
    truthy [version] or without [items]: it shows "Invalid cache file
    format" and changes neither the storage nor the cache.  The import of
    the settings panel rejects a file whose [version] is not strictly equal
    to [CACHE_CONFIG.version], a missing one included: it shows "Cache
    version mismatch" and changes neither the storage nor the cache. *)
Theorem C7_import_rejections :
  forall (now : Z) (d : ImportData) (w : World),
    (truthy (file_version d) = false \/ file_items d = None ->
     Popup.importCache now (Parsed d) w =
       (Normal tt,
        with_alert "Failed to import cache: Invalid cache file format" w))
    /\ (strict_neq_string (file_version d) (version CACHE_CONFIG) = true ->
        Settings.importCache now (Parsed d) w =
          (Normal tt,
           with_alert "Failed to import cache: Cache version mismatch" w)).
Proof.
  intros now d w. split.
  - intros Hbad.
    unfold Popup.importCache, try_catch, bind, parse_file, ret, throw,
      report_import_failure, modify.
    destruct (truthy (file_version d)) eqn:Hv.
    + destruct Hbad as [Hbad|Hbad]; [discriminate|]. now rewrite Hbad.
    + reflexivity.
  - intros Hbad.
    unfold Settings.importCache, try_catch, bind, parse_file, ret, throw,
      report_import_failure, modify.
    now rewrite Hbad.
Qed.

(** ** Platform selection *)

Lemma with_priority_spec (entries : list (string * PlatformPrice)) :
  (forall p d, In (p, d) entries ->
     exists info, map_get p PLATFORM_CONFIG_platforms = Some info) ->
  exists l,
    with_priority entries = Normal l
    /\ List.length l = List.length entries
    /\ (forall p d z, In (p, d, z) l ->
          In (p, d) entries
          /\ exists info, map_get p PLATFORM_CONFIG_platforms = Some info
                          /\ priority info = z)
    /\ (forall p d info, In (p, d) entries ->
          map_get p PLATFORM_CONFIG_platforms = Some info ->
          In (p, d, priority info) l).
Proof.
  induction entries as [|[p0 d0] entries IH]; intros Hcfg.
  - exists []. simpl. repeat split; intros; contradiction.
  - destruct (Hcfg p0 d0 (or_introl eq_refl)) as [info0 Hinfo0].
    destruct IH as (l & Hl & Hlen & Hfrom & Hto).
    { intros p d Hin. apply (Hcfg p d). now right. }
    exists ((p0, d0, priority info0) :: l).
    cbn [with_priority]. rewrite Hinfo0, Hl. cbn [List.length].
    repeat split.
    + now rewrite Hlen.
    + destruct H as [H|H]; [inversion H; subst; now left|].
      right. now apply (Hfrom p d z).
    + destruct H as [H|H]; [inversion H; subst; now exists info0|].
      now apply (Hfrom p d z).
    + intros p d info [H|H] Hinfo.
      * inversion H; subst. left. congruence.
      * right. now apply Hto.
Qed.

(** The first element of a sorted array is least. *)
Lemma array_sort_head_least {A : Type} (cmp : A -> A -> Z)
  (cmp_total : forall a b, 0 < cmp a b -> cmp b a <= 0)
  (cmp_trans : forall a b c, cmp a b <= 0 -> cmp b c <= 0 -> cmp a c <= 0)
  (cmp_refl : forall a, cmp a a <= 0)
  (l : list A) (x : A) (rest : list A) :
  array_sort cmp l = x :: rest ->
  In x l /\ forall y, In y l -> cmp x y <= 0.
Proof.
  intros Hs.
  pose proof (array_sort_perm cmp l) as Hperm.
  pose proof (array_sort_sorted cmp cmp_total cmp_trans l) as Hsorted.
  rewrite Hs in Hperm, Hsorted.
  split.
  - apply (Permutation_in _ (Permutation_sym Hperm)). now left.
  - intros y Hy. apply (Permutation_in _ Hperm) in Hy.
    destruct Hy as [<-|Hy]; [apply cmp_refl|].
    apply StronglySorted_inv in Hsorted. destruct Hsorted as [_ Hall].
    rewrite Forall_forall in Hall. now apply Hall.
Qed.

(** C4.  On a [prices] object whose available entries belong to
    configured platforms, [selectPlatformPrice] returns an object and does
    not throw.  If some entry has a price other than 'N/A' and a link, the
    result is such an entry, with its platform and priority added, and no
    available entry has a lower priority.  If no entry has both, the result
    is, as it is, the entry of the platform whose priority is 1 (taobao),
    its 'N/A' price included. *)
Theorem C4_selectPlatformPrice_choice :
  forall (prices : JsMap PlatformPrice),
    (forall p d, In (p, d) prices -> available d = true ->
       exists info, map_get p PLATFORM_CONFIG_platforms = Some info) ->
    exists r,
      selectPlatformPrice prices = Normal r
      /\ ((exists p d, In (p, d) prices /\ available d = true) ->
          exists p d info,
            In (p, d) prices /\ available d = true
            /\ map_get p PLATFORM_CONFIG_platforms = Some info
            /\ r = {| r_platform := Some p; r_data := d;
                      r_priority := Some (priority info) |}
            /\ forall p' d' info',
                 In (p', d') prices -> available d' = true ->
                 map_get p' PLATFORM_CONFIG_platforms = Some info' ->
                 priority info <= priority info')
      /\ ((forall p d, In (p, d) prices -> available d = false) ->
          forall p1 info1 d1,
            map_get p1 PLATFORM_CONFIG_platforms = Some info1 ->
            priority info1 = 1 ->
            map_get p1 prices = Some d1 ->
            r = plain d1).
Proof.
  intros prices Hcfg.
  set (avail := filter (fun e => available (snd e)) prices).
  assert (Havail : forall p d, In (p, d) avail <-> In (p, d) prices /\ available d = true).
  { intros p d. unfold avail. now rewrite filter_In. }
  destruct (with_priority_spec avail) as (l & Hl & Hlen & Hfrom & Hto).
  { intros p d Hin. apply Havail in Hin. destruct Hin. eauto. }
  unfold selectPlatformPrice. fold avail. rewrite Hl.
  destruct l as [|first others].
  - (* nothing is available *)
    assert (Hnone : avail = []) by (destruct avail; [reflexivity|discriminate]).
    change (array_sort (fun a b : string * PlatformInfo => priority (snd a) - priority (snd b))
              PLATFORM_CONFIG_platforms)
      with PLATFORM_CONFIG_platforms.
    cbn [PLATFORM_CONFIG_platforms].
    assert (Hr : exists r,
              match map_get "taobao" prices with
              | Some d => Normal (plain d)
              | None => Normal (plain unavailable)
              end = Normal r
              /\ forall d1, map_get "taobao" prices = Some d1 -> r = plain d1).
    { destruct (map_get "taobao" prices) as [dt|]; eexists;
        (split; [reflexivity|]); intros d1 Hd1;
        [now inversion Hd1 | discriminate]. }
    destruct Hr as (r & Hr & Hverbatim).
    exists r. split; [exact Hr|]. split.
    + intros (p & d & Hin & Hav).
      assert (H : In (p, d) avail) by (apply Havail; auto).
      rewrite Hnone in H. contradiction.
    + intros _ p1 info1 d1 Hp1 Hone Hd1.
      assert (Ep : p1 = "taobao"%string).
      { cbn in Hp1.
        destruct (String.eqb_spec p1 "taobao"); [assumption|].
        destruct (String.eqb p1 "weidian"); [|discriminate].
        inversion Hp1; subst. discriminate. }
      subst p1. now apply Hverbatim.
  - (* some entry is available *)
    fold by_priority.
    destruct (array_sort by_priority (first :: others)) as [|[[p d] z] rest] eqn:Hsort.
    { pose proof (array_sort_length by_priority (first :: others)) as Hlen'.
      rewrite Hsort in Hlen'. discriminate. }
    assert (Hhead : In (p, d, z) (first :: others)
                    /\ forall y, In y (first :: others) -> by_priority (p, d, z) y <= 0).
    { apply (array_sort_head_least by_priority) with (rest := rest);
        try exact Hsort; unfold by_priority; intros; lia. }
    destruct Hhead as [Hin Hleast].
    destruct (Hfrom p d z Hin) as (Hin' & info & Hinfo & Hz).
    apply Havail in Hin'. destruct Hin' as [Hinp Hav].
    eexists. split; [reflexivity|]. split.
    + intros _. exists p, d, info. subst z. repeat split; auto.
      intros p' d' info' Hin2 Hav2 Hinfo2.
      assert (H2 : In (p', d', priority info') (first :: others)).
      { apply Hto; [apply Havail; auto | assumption]. }
      specialize (Hleast _ H2). unfold by_priority in Hleast. simpl in Hleast. lia.
    + intros Hnone. rewrite (Hnone p d Hinp) in Hav. discriminate.
Qed.

(** ** The page fetch *)

Lemma map_get_of_key {V : Type} (k : string) (m : JsMap V) :
  In k (map_keys m) -> exists v, map_get k m = Some v.
Proof.
  induction m as [|[k' v'] m IH]; simpl; intros Hin; [contradiction|].
  destruct (String.eqb_spec k k') as [->|Hne]; [eauto|].
  destruct Hin as [Heq|Hin]; [congruence | now apply IH].
Qed.

Lemma map_set_keys_same {V : Type} (k : string) (v : V) (m : JsMap V) :
  In k (map_keys m) -> map_keys (map_set k v m) = map_keys m.
Proof.
  induction m as [|[k' v'] m IH]; simpl; intros Hin; [contradiction|].
  destruct (String.eqb_spec k k') as [->|Hne]; simpl; [reflexivity|].
  destruct Hin as [Heq|Hin]; [congruence|]. now rewrite IH.
Qed.

Lemma fetch_price_keys (br : Browser) (platform url : string)
  (prices : JsMap PlatformPrice) :
  map_keys (fetch_price br platform url prices) = map_keys prices.
Proof.
  unfold fetch_price, assign_price.
  destruct (sendMessage br url) as [|[|] priceText]; try reflexivity.
  destruct (map_get platform prices) as [d|] eqn:Hget; [|reflexivity].
  apply map_set_keys_same.
  apply map_get_In, (in_map fst) in Hget. exact Hget.
Qed.

(** On an entry of [prices] that belongs to a configured platform the
    lookup of one platform ends normally, with the same keys. *)
Lemma fetchPriceForPlatform_keys (br : Browser) (platform lnk : string)
  (extractId : string -> option string) (prices : JsMap PlatformPrice)
  (info : PlatformInfo) :
  In platform (map_keys prices) ->
  map_get platform PLATFORM_CONFIG_platforms = Some info ->
  exists prices',
    fetchPriceForPlatform br platform lnk extractId prices = Normal prices'
    /\ map_keys prices' = map_keys prices.
Proof.
  intros Hin Hinfo. unfold fetchPriceForPlatform.
  destruct (string_truthy (extractId ("https://" ++ lnk)%string)); [|eauto].
  unfold assign_link.
  destruct (map_get_of_key platform prices Hin) as [d Hd].
  rewrite Hd, Hinfo. eexists. split; [reflexivity|].
  rewrite fetch_price_keys. now apply map_set_keys_same.
Qed.

Lemma selectPlatformPrice_total (prices : JsMap PlatformPrice) :
  (forall p, In p (map_keys prices) ->
     exists info, map_get p PLATFORM_CONFIG_platforms = Some info) ->
  exists r, selectPlatformPrice prices = Normal r.
Proof.
  intros Hcfg.
  destruct (with_priority_spec (filter (fun e => available (snd e)) prices))
    as (l & Hl & _).
  { intros p d Hin. apply filter_In in Hin. destruct Hin as [Hin _].
    apply Hcfg. apply (in_map fst) in Hin. exact Hin. }
  unfold selectPlatformPrice. rewrite Hl.
  destruct l as [|first others].
  - change (array_sort (fun a b : string * PlatformInfo =>
                          priority (snd a) - priority (snd b))
              PLATFORM_CONFIG_platforms)
      with PLATFORM_CONFIG_platforms.
    cbn [PLATFORM_CONFIG_platforms].
    destruct (map_get "taobao" prices); eauto.
  - destruct (array_sort by_priority (first :: others)) as [|[[p d] z] rest] eqn:Hsort.
    + pose proof (array_sort_length by_priority (first :: others)) as Hlen.
      rewrite Hsort in Hlen. discriminate.
    + eauto.
Qed.

Lemma two_platforms_configured (prices : JsMap PlatformPrice) :
  map_keys prices = ["taobao"; "weidian"]%string ->
  forall p, In p (map_keys prices) ->
    exists info, map_get p PLATFORM_CONFIG_platforms = Some info.
Proof.
  intros Hk p Hin. rewrite Hk in Hin.
  destruct Hin as [<-|[<-|[]]]; eexists; reflexivity.
Qed.

(** The second branch of [Promise.all] and the selection. *)
Lemma weidian_branch_then_select (br : Browser) (weidianMatch : option string)
  (prices1 : JsMap PlatformPrice) :
  map_keys prices1 = ["taobao"; "weidian"]%string ->
  exists prices2 r,
    map_keys prices2 = ["taobao"; "weidian"]%string
    /\ match
         match weidianMatch with
         | Some m =>
             fetchPriceForPlatform br "weidian" m (extractWeidianId br) prices1
         | None => Normal prices1
         end
       with
       | Normal prices2 => selectPlatformPrice prices2
       | Throw e => Throw e
       end = selectPlatformPrice prices2
    /\ selectPlatformPrice prices2 = Normal r.
Proof.
  intros Hk1.
  destruct weidianMatch as [m|].
  - destruct (fetchPriceForPlatform_keys br "weidian" m (extractWeidianId br)
                prices1 {| baseUrl := "https://www.jadeship.com/item/weidian/";
                           priority := 2 |})
      as (prices2 & E2 & Hk2); [rewrite Hk1; simpl; tauto | reflexivity |].
    rewrite E2. rewrite Hk1 in Hk2.
    destruct (selectPlatformPrice_total prices2
                (two_platforms_configured prices2 Hk2)) as [r Hr].
    exists prices2, r. auto.
  - destruct (selectPlatformPrice_total prices1
                (two_platforms_configured prices1 Hk1)) as [r Hr].
    exists prices1, r. auto.
Qed.

(** A page that was read is resolved by [selectPlatformPrice] on an
    object with the two platform keys; the outer handler is not needed. *)
Lemma fetch_body_page_read (br : Browser) (productLink : string)
  (taobaoMatch weidianMatch : option string) :
  fetch_page br productLink = PageRead taobaoMatch weidianMatch ->
  exists prices r,
    map_keys prices = ["taobao"; "weidian"]%string
    /\ fetch_body br productLink = selectPlatformPrice prices
    /\ selectPlatformPrice prices = Normal r.
Proof.
  intros Hpage. unfold fetch_body. rewrite Hpage. cbv zeta.
  destruct taobaoMatch as [m|].
  - destruct (fetchPriceForPlatform_keys br "taobao" m (extractTaobaoId br)
                [("taobao"%string, unavailable); ("weidian"%string, unavailable)]
                {| baseUrl := "https://www.jadeship.com/item/taobao/";
                   priority := 1 |})
      as (prices1 & E1 & Hk1); [simpl; tauto | reflexivity |].
    rewrite E1. apply weidian_branch_then_select. exact Hk1.
  - apply weidian_branch_then_select. reflexivity.
Qed.

(** C9.  [fetchProductDetails] always resolves, to an object with a price
    and a link.  When the race of the fetch with the timer is lost to the
    timer, when the fetch is rejected, and when reading the response body
    fails, it resolves to [{ price: 'N/A', link: null }]; for a page that
    was read it resolves to what [selectPlatformPrice] returns for the two
    platform entries. *)
Theorem C9_fetchProductDetails_resolves :
  forall (br : Browser) (productLink : string),
    exists r,
      fetchProductDetails br productLink = Normal r
      /\ (exists p l, price (r_data r) = p /\ link (r_data r) = l)
      /\ (fetch_page br productLink = RaceTimeout
          \/ fetch_page br productLink = FetchRejected
          \/ fetch_page br productLink = TextRejected ->
          r = plain unavailable)
      /\ (forall taobaoMatch weidianMatch,
            fetch_page br productLink = PageRead taobaoMatch weidianMatch ->
            exists prices,
              map_keys prices = ["taobao"; "weidian"]%string
              /\ selectPlatformPrice prices = Normal r).
Proof.
  intros br productLink. unfold fetchProductDetails.
  destruct (fetch_page br productLink) as [| | |t w] eqn:Hpage.
  - exists (plain unavailable). unfold fetch_body. rewrite Hpage.
    repeat split; eauto. intros ? ? H; discriminate H.
  - exists (plain unavailable). unfold fetch_body. rewrite Hpage.
    repeat split; eauto. intros ? ? H; discriminate H.
  - exists (plain unavailable). unfold fetch_body. rewrite Hpage.
    repeat split; eauto. intros ? ? H; discriminate H.
  - destruct (fetch_body_page_read br productLink t w Hpage)
      as (prices & r & Hkeys & Hbody & Hsel).
    exists r. rewrite Hbody, Hsel.
    split; [reflexivity|]. split; [eauto|]. split.
    + intros [H|[H|H]]; discriminate H.
    + intros t' w' _. exists prices. auto.
Qed.

(** ** Fees and conversion *)

(** Two float constants differ when comparing each with the second one
    gives different answers. *)
Ltac floats_differ :=
  let H := fresh in
  intros H;
  match type of H with
  | _ = ?y => apply (f_equal (fun v => PrimFloat.eqb v y)) in H
  end;
  vm_compute in H; discriminate H.

(** What the code returns for the example of the docstring: the product
    of the floats 100 and 1.0238 is the float above 102.38. *)
Lemma calculateAgentFee_superbuy_100 :
  calculateAgentFee 100 "superbuy" = 102.38000000000001%float
  /\ Prim2SF (calculateAgentFee 100 "superbuy")
     = S754_finite false 7204352028909241 (-46)
  /\ Prim2SF 102.38%float = S754_finite false 7204352028909240 (-46).
Proof. repeat split; vm_compute; reflexivity. Qed.

Lemma calculateAgentFee_allchinabuy_100 :
  calculateAgentFee 100 "allchinabuy" = 104%float.
Proof. vm_compute. reflexivity. Qed.

(** C5 fails as stated, at two inputs: for 'superbuy' the result is not the
    float 102.38, and 'SUPERBUY', which is none of the three names, is
    folded to 'superbuy' and so does not get the default rate. *)
Lemma C5_counterexample :
  calculateAgentFee 100 "superbuy" <> 102.38%float
  /\ ~ In "SUPERBUY"%string recognized_agents
  /\ calculateAgentFee 100 "SUPERBUY" <> 103%float.
Proof.
  split; [floats_differ|]. split; [|floats_differ].
  unfold recognized_agents. simpl. intros [H|[H|[H|[]]]]; discriminate H.
Qed.

(** C5, as the code has it.  [calculateAgentFee(100, 'cssbuy')] is exactly
    102, and [calculateAgentFee(100, a)] is exactly 103 for every agent
    string [a] whose lower-case form is none of superbuy, cssbuy and
    allchinabuy, 'unknown-agent' among them; the function returns a number
    for every agent string. *)
Theorem C5_calculateAgentFee_values :
  calculateAgentFee 100 "cssbuy" = 102%float
  /\ calculateAgentFee 100 "unknown-agent" = 103%float
  /\ (forall a : string,
        ~ In (toLowerCase a) recognized_agents ->
        calculateAgentFee 100 a = 103%float)
  /\ (forall (p : float) (a : string), exists x : float, calculateAgentFee p a = x).
Proof.
  split; [vm_compute; reflexivity|]. split; [vm_compute; reflexivity|]. split.
  - intros a Hout. unfold calculateAgentFee, recognized_agents in *.
    destruct (String.eqb_spec (toLowerCase a) "superbuy") as [E|_];
      [exfalso; apply Hout; rewrite E; simpl; tauto|].
    destruct (String.eqb_spec (toLowerCase a) "cssbuy") as [E|_];
      [exfalso; apply Hout; rewrite E; simpl; tauto|].
    destruct (String.eqb_spec (toLowerCase a) "allchinabuy") as [E|_];
      [exfalso; apply Hout; rewrite E; simpl; tauto|].
    vm_compute. reflexivity.
  - intros p a. eexists. reflexivity.
Qed.

(** C10.  [convertCurrency] does not look at [fromCurrency]: two calls that
    differ only there return the same number.  The number is the amount
    itself when no table is loaded or the table has no entry for the
    lower-cased target code, and otherwise, for a rate other than 0 and NaN,
    the product with that rate rounded by [toFixed(2)]. *)
Theorem C10_convertCurrency_ignores_source :
  forall (cache : CurrencyCache) (amount : float) (f1 f2 toCurrency : string),
    convertCurrency cache amount f1 toCurrency
      = convertCurrency cache amount f2 toCurrency
    /\ (rates cache = None ->
        convertCurrency cache amount f1 toCurrency = amount)
    /\ (forall table, rates cache = Some table ->
          map_get (toLowerCase toCurrency) table = None ->
          convertCurrency cache amount f1 toCurrency = amount)
    /\ (forall table rate, rates cache = Some table ->
          map_get (toLowerCase toCurrency) table = Some rate ->
          number_truthy rate = true ->
          convertCurrency cache amount f1 toCurrency
            = toFixed2 (amount * rate)%float).
Proof.
  intros cache amount f1 f2 toCurrency. unfold convertCurrency.
  split; [reflexivity|]. split; [|split].
  - intros H. now rewrite H.
  - intros table Ht Hnone. now rewrite Ht, Hnone.
  - intros table rate Ht Hrate Htruthy. now rewrite Ht, Hrate, Htruthy.
Qed.

(** ** Runs on the sample data *)

Lemma distinctb_sound (l : list string) : distinctb l = true -> NoDup l.
Proof.
  induction l as [|x l IH]; simpl; intros H; [constructor|].
  apply andb_true_iff in H. destruct H as [Hx Hl].
  constructor; [|now apply IH].
  intros Hin. apply negb_true_iff in Hx.
  assert (Ht : existsb (String.eqb x) l = true).
  { apply existsb_exists. exists x. split; [exact Hin | apply String.eqb_refl]. }
  congruence.
Qed.

(** [get] on the three sample entries, ten milliseconds after [t0]: the
    first entry is returned, the second one is eight days old and absent,
    and so is a key that was never set. *)
Example get_three_entries :
  let w := Sample.running Sample.three_entries Sample.current_storage [] in
  fst (get (Sample.t0 + 10) "https://x.yupoo.com/albums/1" w)
    = Normal (Sample.payload "128")
  /\ fst (get (Sample.t0 + 10) "https://x.yupoo.com/albums/2" w) = Normal JsNull
  /\ fst (get (Sample.t0 + 10) "https://x.yupoo.com/albums/9" w) = Normal JsNull
  /\ fst (get (Sample.t0 + 7 * Sample.day) "https://x.yupoo.com/albums/1" w)
       = Normal JsNull.
Proof. repeat split. Qed.

(** [cleanup] on 1002 valid entries takes out exactly the two that were
    read least recently. *)
Example cleanup_evicts_least_recently_read :
  let w' := snd (cleanup (Sample.t0 + 2000)
                   (Sample.running Sample.crowded Sample.empty_storage [])) in
  List.length (this_data w') = 1000%nat
  /\ List.filter (fun k => negb (existsb (String.eqb k) (map_keys (this_data w'))))
                 (map_keys Sample.crowded)
       = [Sample.album 0; Sample.album 325]
  /\ productCache (local w') = Some (this_data w').
Proof. vm_compute. repeat split. Qed.

Lemma C2_witness :
  map_wf (this_data (Sample.running Sample.crowded Sample.empty_storage []))
  /\ exists w',
       cleanup (Sample.t0 + 2000)
         (Sample.running Sample.crowded Sample.empty_storage []) = (Normal tt, w')
       /\ (List.length (this_data w') <= 1000)%nat.
Proof.
  assert (Hwf : map_wf (this_data
                          (Sample.running Sample.crowded Sample.empty_storage []))).
  { apply distinctb_sound. vm_compute. reflexivity. }
  split; [exact Hwf|].
  destruct (C2_cleanup_capacity_lru (Sample.t0 + 2000) _ Hwf)
    as (w' & Hc & Hlen & _).
  exists w'. split; assumption.
Defined.

Lemma C8_witness :
  map_wf (this_data (Sample.running Sample.three_entries Sample.current_storage []))
  /\ (forall k e, In (k, e) Sample.three_entries ->
        isValidCacheEntry (Sample.t0 + 10) e = true ->
        isValidCacheEntry (Sample.t0 + 3600000) e = true)
  /\ let w1 := snd (cleanup (Sample.t0 + 10)
                      (Sample.running Sample.three_entries Sample.current_storage [])) in
     sweep (Sample.t0 + 3600000) (this_data w1) = (Normal tt, (this_data w1, 0%nat))
     /\ cleanup (Sample.t0 + 3600000) w1 = (Normal tt, w1).
Proof.
  assert (Hwf : map_wf (this_data
             (Sample.running Sample.three_entries Sample.current_storage []))).
  { apply distinctb_sound. vm_compute. reflexivity. }
  assert (Hstill : forall k e, In (k, e) Sample.three_entries ->
            isValidCacheEntry (Sample.t0 + 10) e = true ->
            isValidCacheEntry (Sample.t0 + 3600000) e = true).
  { intros k e [H|[H|[H|[]]]]; inversion H; subst; vm_compute; auto. }
  split; [exact Hwf|]. split; [exact Hstill|].
  apply (C8_cleanup_twice_deletes_nothing (Sample.t0 + 10) (Sample.t0 + 3600000)
           (Sample.running Sample.three_entries Sample.current_storage []) Hwf Hstill).
Defined.

(** The first of the two cleanups above deletes the entry that is eight
    days old and writes the two others to the storage. *)
Example cleanup_three_entries :
  let w1 := snd (cleanup (Sample.t0 + 10)
                   (Sample.running Sample.three_entries Sample.current_storage [])) in
  map_keys (this_data w1)
    = ["https://x.yupoo.com/albums/1"; "https://x.yupoo.com/albums/3"]%string
  /\ productCache (local w1) = Some (this_data w1).
Proof. vm_compute. repeat split. Qed.

Lemma C3_witness :
  this_initialized (Sample.fresh Sample.stale_storage []) = false
  /\ strict_neq_string (JsStr "0.9.0") (version CACHE_CONFIG) = true
  /\ exists w',
       initialize (Sample.t0 + 10) (Sample.fresh Sample.stale_storage [])
         = (Normal tt, w')
       /\ this_data w' = []
       /\ productCache (local w') = None.
Proof.
  split; [reflexivity|]. split; [reflexivity|].
  destruct (C3_version_mismatch_empties_cache (Sample.t0 + 10)
              (Sample.fresh Sample.stale_storage [])
              {| md_version := JsStr "0.9.0"; lastCleanup := Sample.t0 |}
              eq_refl eq_refl eq_refl eq_refl)
    as (w' & Hrun & Hdata & _ & Hstore & _).
  exists w'. split; [exact Hrun|]. split; [exact Hdata|].
  apply Hstore. reflexivity.
Defined.

(** With the expected version in the storage the same entries are loaded,
    the valid ones. *)
Example initialize_current_version :
  let w' := snd (initialize (Sample.t0 + 10) (Sample.fresh Sample.current_storage [])) in
  map_keys (this_data w')
    = ["https://x.yupoo.com/albums/1"; "https://x.yupoo.com/albums/3"]%string
  /\ this_initialized w' = true.
Proof. vm_compute. repeat split. Qed.

(** C6 fails as stated: when the removal of the stale records is rejected,
    the run ends with the cache marked as initialized and with the storage
    as it was, so the metadata there still has the old version. *)
Lemma C6_counterexample :
  let w' := snd (initialize (Sample.t0 + 10)
                   (Sample.fresh Sample.stale_storage [false; true])) in
  this_initialized w' = true
  /\ local w' = Sample.stale_storage
  /\ ~ (exists md', cacheMetadata (local w') = Some md'
                    /\ md_version md' = JsStr (version CACHE_CONFIG)).
Proof.
  split; [reflexivity|]. split; [reflexivity|].
  intros (md' & Hmd & Hv). vm_compute in Hmd. inversion Hmd; subst md'.
  discriminate Hv.
Qed.

Lemma C6_witness :
  this_initialized (Sample.fresh Sample.current_storage []) = false
  /\ map_wf (this_data (Sample.fresh Sample.current_storage []))
  /\ faults (Sample.fresh Sample.current_storage []) = []
  /\ exists md',
       cacheMetadata
         (local (snd (initialize (Sample.t0 + 2 * Sample.day)
                        (Sample.fresh Sample.current_storage [])))) = Some md'
       /\ md_version md' = JsStr (version CACHE_CONFIG).
Proof.
  assert (Hwf : map_wf (this_data (Sample.fresh Sample.current_storage [])))
    by constructor.
  split; [reflexivity|]. split; [exact Hwf|]. split; [reflexivity|].
  destruct (C6_initialize_ends_initialized (Sample.t0 + 2 * Sample.day)
              (Sample.fresh Sample.current_storage [])) as [_ Hpersist].
  destruct (Hpersist eq_refl Hwf eq_refl) as (md' & Hmd & Hv & _).
  exists md'. split; assumption.
Defined.

(** C7 fails as stated: the popup import takes a file of another schema
    version.  It shows no message and overwrites the stored entries and
    metadata. *)
Lemma C7_counterexample :
  strict_neq_string (file_version Sample.file_other_version)
                    (version CACHE_CONFIG) = true
  /\ let w := Sample.running Sample.three_entries Sample.current_storage [] in
     let w' := snd (Popup.importCache (Sample.t0 + 10)
                      (Parsed Sample.file_other_version) w) in
     alerts w' = []
     /\ productCache (local w') = Some []
     /\ cacheMetadata (local w')
          = Some {| md_version := JsStr "0.9.0"; lastCleanup := Sample.t0 + 10 |}
     /\ local w' <> local w.
Proof.
  split; [reflexivity|]. cbv zeta.
  split; [reflexivity|]. split; [reflexivity|]. split; [reflexivity|].
  vm_compute. discriminate.
Qed.

(** The import of the settings panel, for a file of the running version
    without [items]: the message is shown after the cache has been
    cleared, in memory and in the storage. *)
Lemma settings_import_without_items :
  let w := Sample.running Sample.three_entries Sample.current_storage [] in
  let w' := snd (Settings.importCache (Sample.t0 + 10)
                   (Parsed Sample.file_without_items) w) in
  alerts w' = ["Failed to import cache: Cannot convert undefined or null to object"%string]
  /\ this_data w' = []
  /\ local w' = Sample.empty_storage.
Proof. repeat split. Qed.

Lemma C7_witness :
  (truthy (file_version Sample.file_without_fields) = false
   \/ file_items Sample.file_without_fields = None)
  /\ strict_neq_string (file_version Sample.file_without_fields)
                       (version CACHE_CONFIG) = true
  /\ (let w := Sample.running Sample.three_entries Sample.current_storage [] in
      Popup.importCache (Sample.t0 + 10) (Parsed Sample.file_without_fields) w
        = (Normal tt,
           with_alert "Failed to import cache: Invalid cache file format" w)
      /\ Settings.importCache (Sample.t0 + 10) (Parsed Sample.file_without_fields) w
           = (Normal tt,
              with_alert "Failed to import cache: Cache version mismatch" w)).
Proof.
  split; [left; reflexivity|]. split; [reflexivity|]. cbv zeta.
  destruct (C7_import_rejections (Sample.t0 + 10) Sample.file_without_fields
              (Sample.running Sample.three_entries Sample.current_storage []))
    as [Hpopup Hsettings].
  split; [apply Hpopup; left; reflexivity | apply Hsettings; reflexivity].
Defined.

(** The example of the selection: taobao, of priority 1, has no price, and
    weidian, of priority 2, has a price and a link. *)
Example select_weidian_when_taobao_unavailable :
  selectPlatformPrice Sample.prices_weidian_only
    = Normal {| r_platform := Some "weidian"%string;
                r_data := {| price := "10";
                             link := Some "weidian.com/item.html?itemID=7"%string |};
                r_priority := Some 2 |}.
Proof. reflexivity. Qed.

(** With both platforms available the one of priority 1 wins, whatever
    the order of the entries. *)
Example select_lowest_priority :
  selectPlatformPrice
    [ ("weidian"%string, {| price := "10"; link := Some "w"%string |});
      ("taobao"%string, {| price := "12"; link := Some "t"%string |}) ]
    = Normal {| r_platform := Some "taobao"%string;
                r_data := {| price := "12"; link := Some "t"%string |};
                r_priority := Some 1 |}.
Proof. reflexivity. Qed.

(** The fallback: nothing is available, and the taobao entry comes back as
    it is, with its link and its 'N/A' price. *)
Example select_fallback_verbatim :
  selectPlatformPrice
    [ ("taobao"%string, {| price := "N/A"; link := Some "t"%string |});
      ("weidian"%string, {| price := "10"; link := None |}) ]
    = Normal (plain {| price := "N/A"; link := Some "t"%string |}).
Proof. reflexivity. Qed.

Lemma C4_witness :
  (forall p d, In (p, d) Sample.prices_weidian_only -> available d = true ->
     exists info, map_get p PLATFORM_CONFIG_platforms = Some info)
  /\ exists r, selectPlatformPrice Sample.prices_weidian_only = Normal r
               /\ r_platform r = Some "weidian"%string.
Proof.
  assert (Hcfg : forall p d, In (p, d) Sample.prices_weidian_only ->
            available d = true ->
            exists info, map_get p PLATFORM_CONFIG_platforms = Some info).
  { intros p d [H|[H|[]]] _; inversion H; subst; eexists; reflexivity. }
  split; [exact Hcfg|].
  destruct (C4_selectPlatformPrice_choice Sample.prices_weidian_only Hcfg)
    as (r & Hr & _).
  exists r. split; [exact Hr|].
  vm_compute in Hr. inversion Hr. reflexivity.
Defined.

Lemma C5_witness :
  ~ In (toLowerCase "CNFans") recognized_agents
  /\ calculateAgentFee 100 "CNFans" = 103%float.
Proof.
  assert (Hout : ~ In (toLowerCase "CNFans") recognized_agents).
  { vm_compute. intros [H|[H|[H|[]]]]; discriminate H. }
  split; [exact Hout|].
  destruct C5_calculateAgentFee_values as (_ & _ & Hdefault & _).
  apply Hdefault, Hout.
Defined.

(** When the timer wins the race the result is the unavailable price
    without link. *)
Example fetch_timeout :
  fetchProductDetails Sample.slow_browser "https://x.yupoo.com/albums/1"
    = Normal (plain unavailable).
Proof. reflexivity. Qed.

(** A price lookup that is rejected is caught by the inner handler: the
    page fetch goes on, and the taobao entry comes back with the link that
    was found and the 'N/A' price. *)
Example fetch_price_lookup_rejected :
  fetchProductDetails Sample.lookup_fails_browser "https://x.yupoo.com/albums/1"
    = Normal (plain {| price := "N/A";
                       link := Some "item.taobao.com/item.htm?id=1"%string |}).
Proof. reflexivity. Qed.

(** A conversion with a loaded table: the target code is lower-cased, the
    product is rounded to two decimals. *)
Example convert_to_usd :
  let cache := {| rates := Some [("usd"%string, 0.14%float)];
                  lastUpdate := Some Sample.t0 |} in
  convertCurrency cache 102.38000000000001%float "cny" "USD" = 14.33%float
  /\ convertCurrency cache 102.38000000000001%float "eur" "USD" = 14.33%float
  /\ convertCurrency cache 100%float "cny" "gbp" = 100%float
  /\ convertCurrency {| rates := None; lastUpdate := None |} 100%float "cny" "usd"
       = 100%float.
Proof. vm_compute. repeat split. Qed.

(** * Further properties of the cache *)

Lemma map_get_set_other {V : Type} (k k' : string) (v : V) (m : JsMap V) :
  k' <> k -> map_get k' (map_set k v m) = map_get k' m.
Proof.
  intros Hne. induction m as [|[k0 v0] m IH]; simpl.
  - destruct (String.eqb_spec k' k); [contradiction|reflexivity].
  - destruct (String.eqb_spec k k0) as [->|Hk]; simpl.
    + destruct (String.eqb_spec k' k0); [contradiction|reflexivity].
    + destruct (String.eqb k' k0); [reflexivity|exact IH].
Qed.

Lemma set_eq (now : Z) (k : string) (v : JsValue) (w : World) :
  set now k v w =
    persistToStorage
      (with_data (map_set k {| data := v; timestamp := now; lastAccessed := now |}
                    (this_data w)) w).
Proof.
  unfold set, waitForInitialization, bind, ret, modify.
  now destruct (persistToStorage _) as [[[]|e] w'].
Qed.

Lemma persistToStorage_eq (w : World) :
  persistToStorage w =
    match faults w with
    | true :: rest => (Normal tt, with_faults rest w)
    | false :: rest =>
        (Normal tt,
         with_local {| productCache := Some (this_data w);
                       cacheMetadata := cacheMetadata (local w) |}
           (with_faults rest w))
    | [] =>
        (Normal tt,
         with_local {| productCache := Some (this_data w);
                       cacheMetadata := cacheMetadata (local w) |} w)
    end.
Proof.
  unfold persistToStorage, try_catch, bind, read, storage_set_productCache,
    storage_call, ret.
  now destruct (faults w) as [|[|] rest].
Qed.

(** X1.  A truthy value written by [set] at a nonzero time is what [get]
    returns for that key as long as the entry is younger than [maxAge],
    whether or not the write to the storage went through. *)
Theorem set_get_roundtrip :
  forall (t0 t1 : Z) (k : string) (v : JsValue) (w : World),
    truthy v = true -> t0 <> 0 -> t1 - t0 < maxAge CACHE_CONFIG ->
    fst (get t1 k (snd (set t0 k v w))) = Normal v.
Proof.
  intros t0 t1 k v w Hv Ht Hage.
  rewrite set_eq.
  destruct (persistToStorage_total
              (with_data (map_set k {| data := v; timestamp := t0;
                                       lastAccessed := t0 |} (this_data w)) w))
    as (w' & Hp & Hd & _).
  rewrite Hp. cbn [snd]. rewrite get_eq, Hd. cbn [this_data with_data].
  rewrite map_get_set_same.
  assert (Hvalid : isValidCacheEntry t1
                     {| data := v; timestamp := t0; lastAccessed := t0 |} = true).
  { apply isValidCacheEntry_true. cbn. auto. }
  now rewrite Hvalid.
Qed.

Lemma set_get_roundtrip_witness :
  truthy (Sample.payload "9") = true
  /\ fst (get (Sample.t0 + 5) "https://x.yupoo.com/albums/7"
            (snd (set Sample.t0 "https://x.yupoo.com/albums/7" (Sample.payload "9")
                    (Sample.running Sample.three_entries Sample.current_storage [true]))))
     = Normal (Sample.payload "9").
Proof.
  split; [reflexivity|].
  apply set_get_roundtrip; [reflexivity | discriminate | reflexivity].
Defined.

(** X2.  A falsy payload (for instance [null], [0] or the empty string)
    can be written but never read back: [get] answers [null] for it at
    every time. *)
Theorem set_falsy_never_read :
  forall (t0 t1 : Z) (k : string) (v : JsValue) (w : World),
    truthy v = false ->
    fst (get t1 k (snd (set t0 k v w))) = Normal JsNull.
Proof.
  intros t0 t1 k v w Hv.
  rewrite set_eq.
  destruct (persistToStorage_total
              (with_data (map_set k {| data := v; timestamp := t0;
                                       lastAccessed := t0 |} (this_data w)) w))
    as (w' & Hp & Hd & _).
  rewrite Hp. cbn [snd]. rewrite get_eq, Hd. cbn [this_data with_data].
  rewrite map_get_set_same.
  unfold isValidCacheEntry. cbn [data]. rewrite Hv.
  now rewrite andb_false_r.
Qed.

Lemma set_falsy_never_read_witness :
  truthy (JsNum 0) = false
  /\ fst (get (Sample.t0 + 5) "k" (snd (set Sample.t0 "k" (JsNum 0)
            (Sample.running [] Sample.empty_storage [])))) = Normal JsNull.
Proof.
  split; [reflexivity|]. apply set_falsy_never_read. reflexivity.
Defined.

(** X3.  [set] on one key leaves what [get] answers for every other key
    as it was. *)
Theorem set_other_key_untouched :
  forall (t0 t1 : Z) (k k' : string) (v : JsValue) (w : World),
    k' <> k ->
    fst (get t1 k' (snd (set t0 k v w))) = fst (get t1 k' w).
Proof.
  intros t0 t1 k k' v w Hne.
  rewrite set_eq.
  destruct (persistToStorage_total
              (with_data (map_set k {| data := v; timestamp := t0;
                                       lastAccessed := t0 |} (this_data w)) w))
    as (w' & Hp & Hd & _).
  rewrite Hp. cbn [snd]. rewrite !get_eq, Hd. cbn [this_data with_data].
  rewrite (map_get_set_other k k' _ _ Hne).
  destruct (map_get k' (this_data w)) as [e|]; [|reflexivity].
  now destruct (isValidCacheEntry t1 e).
Qed.

Lemma set_other_key_untouched_witness :
  "https://x.yupoo.com/albums/1"%string <> "https://x.yupoo.com/albums/7"%string
  /\ fst (get (Sample.t0 + 5) "https://x.yupoo.com/albums/1"
            (snd (set Sample.t0 "https://x.yupoo.com/albums/7" (Sample.payload "9")
                    (Sample.running Sample.three_entries Sample.current_storage []))))
     = Normal (Sample.payload "128").
Proof.
  split; [discriminate|].
  rewrite set_other_key_untouched by discriminate. reflexivity.
Defined.

(** X4.  [set] always completes and puts the entry in the map.  When the
    storage accepts the write, the stored entry map is the whole map in
    memory and the stored metadata is untouched; when the storage rejects
    it, the storage is left as it was and the map in memory is ahead of
    it. *)
Theorem set_persists_whole_map :
  forall (now : Z) (k : string) (v : JsValue) (w : World),
    exists w',
      set now k v w = (Normal tt, w')
      /\ this_data w' =
           map_set k {| data := v; timestamp := now; lastAccessed := now |}
             (this_data w)
      /\ (hd false (faults w) = false ->
          local w' = {| productCache := Some (this_data w');
                        cacheMetadata := cacheMetadata (local w) |})
      /\ (hd false (faults w) = true -> local w' = local w).
Proof.
  intros now k v w. rewrite set_eq, persistToStorage_eq.
  cbn [faults with_data].
  destruct (faults w) as [|[|] rest]; eexists; (split; [reflexivity|]);
    cbn; repeat split; intros; try reflexivity; discriminate.
Qed.

Lemma map_set_touch_same (now : Z) (k : string) (e : CacheEntry)
  (m : JsMap CacheEntry) :
  map_get k m = Some e ->
  List.map (fun kv => (fst kv, data (snd kv), timestamp (snd kv)))
           (map_set k (touch now e) m)
  = List.map (fun kv => (fst kv, data (snd kv), timestamp (snd kv))) m.
Proof.
  induction m as [|[k0 e0] m IH]; simpl; [discriminate|].
  destruct (String.eqb_spec k k0) as [->|Hne]; intros Hget.
  - inversion Hget; subst. reflexivity.
  - simpl. now rewrite IH.
Qed.

(** X5.  [get] writes nothing to the storage and shows no message; it
    keeps the keys, payloads and creation times of all entries, and what
    the map holds for every other key.  On a hit it sets the
    [lastAccessed] of the entry to the time of the read. *)
Theorem get_only_refreshes_lastAccessed :
  forall (now : Z) (k : string) (w : World),
    let w' := snd (get now k w) in
    local w' = local w
    /\ faults w' = faults w
    /\ alerts w' = alerts w
    /\ List.map (fun kv => (fst kv, data (snd kv), timestamp (snd kv))) (this_data w')
       = List.map (fun kv => (fst kv, data (snd kv), timestamp (snd kv))) (this_data w)
    /\ (forall k', k' <> k -> map_get k' (this_data w') = map_get k' (this_data w))
    /\ (forall v, fst (get now k w) = Normal v -> v <> JsNull ->
          exists e, map_get k (this_data w') = Some e
                    /\ data e = v /\ lastAccessed e = now).
Proof.
  intros now k w. cbv zeta. rewrite get_eq.
  destruct (map_get k (this_data w)) as [e|] eqn:Hget.
  - destruct (isValidCacheEntry now e) eqn:Hv; cbn [fst snd].
    + cbn [local faults alerts this_data with_data].
      repeat split.
      * now apply map_set_touch_same.
      * intros k' Hne. now apply map_get_set_other.
      * intros v Hv' _. inversion Hv'; subst.
        exists (touch now e). rewrite map_get_set_same. auto.
    + repeat split. intros v Hv' Hnn. inversion Hv'; subst. now contradiction Hnn.
  - cbn [fst snd]. repeat split.
    intros v Hv' Hnn. inversion Hv'; subst. now contradiction Hnn.
Qed.

Lemma map_delete_length {V : Type} (k : string) (m : JsMap V) :
  (List.length m <= S (List.length (map_delete k m)))%nat.
Proof.
  induction m as [|[k0 v0] m IH]; simpl; [lia|].
  destruct (String.eqb k k0); simpl; lia.
Qed.

(** The [while] loop never takes the map below the capacity. *)
Lemma evict_keeps_capacity (popped : list (string * CacheEntry)) :
  forall (m : JsMap CacheEntry) (d : nat),
    maxItems CACHE_CONFIG <= map_size m ->
    maxItems CACHE_CONFIG <= map_size (fst (snd (evict popped (m, d)))).
Proof.
  induction popped as [|[k e] popped IH]; intros m d Hsize.
  - cbn [evict fst]. destruct (maxItems CACHE_CONFIG <? map_size m); exact Hsize.
  - assert (Hstep : evict ((k, e) :: popped) (m, d) =
                    if maxItems CACHE_CONFIG <? map_size m
                    then evict popped (map_delete k m, S d)
                    else (Normal tt, (m, d))) by reflexivity.
    rewrite Hstep.
    destruct (Z.ltb_spec (maxItems CACHE_CONFIG) (map_size m)) as [Hbig|Hok].
    + apply IH. unfold map_size in *.
      pose proof (map_delete_length k m). lia.
    + exact Hsize.
Qed.

Lemma sweep_nonempty (now : Z) (m : JsMap CacheEntry) (x : string * CacheEntry) :
  In x (filter (valid_at now) m) -> map_wf m ->
  fst (snd (sweep now m)) <> [].
Proof.
  intros Hin Hwf. unfold sweep. rewrite (purge_invalid_wf now m Hwf). cbn [fst].
  destruct (Z.ltb_spec (maxItems CACHE_CONFIG)
              (map_size (filter (valid_at now) m))) as [Hbig|Hok].
  - match goal with
    | |- fst (snd ?st) <> [] =>
        assert (Hcap : maxItems CACHE_CONFIG <= map_size (fst (snd st)))
    end.
    { apply evict_keeps_capacity. lia. }
    intros Hnil. rewrite Hnil in Hcap.
    change (maxItems CACHE_CONFIG) with 1000 in Hcap. unfold map_size in Hcap.
    cbn [List.length Z.of_nat] in Hcap. lia.
  - cbn [fst snd]. intros Hnil. rewrite Hnil in Hin. contradiction.
Qed.

(** X6.  An entry that [get] has just returned is not evicted by a
    [cleanup] at that time, however full the cache is, when every other
    entry was last read earlier. *)
Theorem read_entry_survives_cleanup :
  forall (now : Z) (k : string) (v : JsValue) (w : World),
    map_wf (this_data w) ->
    fst (get now k w) = Normal v -> v <> JsNull ->
    (forall k' e', In (k', e') (this_data w) -> k' <> k -> lastAccessed e' < now) ->
    exists e,
      map_get k (this_data (snd (cleanup now (snd (get now k w))))) = Some e
      /\ data e = v.
Proof.
  intros now k v w Hwf Hget Hnn Hother.
  rewrite get_eq in Hget |- *.
  destruct (map_get k (this_data w)) as [e|] eqn:He;
    [|inversion Hget; subst; now contradiction Hnn].
  destruct (isValidCacheEntry now e) eqn:Hv;
    [|inversion Hget; subst; now contradiction Hnn].
  cbn [fst snd] in *. inversion Hget; subst v. clear Hget.
  set (m1 := map_set k (touch now e) (this_data w)).
  set (w1 := with_data m1 w).
  assert (Hwf1 : map_wf (this_data w1)) by (apply map_set_wf, Hwf).
  assert (Hin1 : In (k, touch now e) m1)
    by (apply map_get_In, map_get_set_same).
  assert (Hvalid1 : In (k, touch now e) (filter (valid_at now) m1)).
  { apply filter_In. split; [exact Hin1|]. exact Hv. }
  destruct (sweep_spec now (this_data w1) Hwf1)
    as (m' & deleted & Hs & Hwf' & _ & Hsub & Hlru & _).
  destruct (cleanup_of_sweep now w1 m' deleted Hs) as (w2 & Hc & Hd & _).
  rewrite Hc. cbn [snd]. rewrite Hd.
  assert (Hne : m' <> []).
  { pose proof (sweep_nonempty now m1 _ Hvalid1 Hwf1) as H.
    change (this_data w1) with m1 in Hs. now rewrite Hs in H. }
  destruct (in_dec string_dec k (map_keys m')) as [Hk|Hk].
  - destruct (map_get_of_key k m' Hk) as [e' He'].
    exists e'. split; [exact He'|].
    apply map_get_In in He'.
    pose proof (Hsub _ He') as Hin'. apply filter_In in Hin'.
    destruct Hin' as [Hin' _].
    now rewrite (map_wf_unique k e' (touch now e) _ Hwf1 Hin' Hin1).
  - exfalso.
    destruct m' as [|[k' e'] rest]; [now apply Hne|].
    assert (Hy : In (k', e') ((k', e') :: rest)) by now left.
    assert (Hnotin : ~ In (k, touch now e) ((k', e') :: rest)).
    { intros H. apply Hk. apply (in_map fst) in H. exact H. }
    pose proof (Hlru (k, touch now e) (k', e') Hvalid1 Hnotin Hy) as Hle.
    cbn [snd lastAccessed touch] in Hle.
    assert (Hk' : k' <> k).
    { intros ->. apply Hk. now left. }
    pose proof (Hsub _ Hy) as Hin'. apply filter_In in Hin'.
    destruct Hin' as [Hin' _].
    assert (Horig : In (k', e') (this_data w)).
    { apply map_get_In.
      rewrite <- (map_get_set_other k k' (touch now e) (this_data w) Hk').
      fold m1. change (this_data w1) with m1 in Hin', Hwf1.
      destruct (map_get k' m1) as [e''|] eqn:Hg.
      - apply map_get_In in Hg. f_equal.
        apply (map_wf_unique k' e'' e' m1 Hwf1 Hg Hin').
      - exfalso. apply (in_map fst) in Hin'.
        destruct (map_get_of_key k' m1 Hin') as [x Hx]. congruence. }
    specialize (Hother k' e' Horig Hk'). lia.
Qed.

Lemma read_entry_survives_cleanup_witness :
  map_wf (this_data (Sample.running Sample.three_entries Sample.current_storage []))
  /\ exists e,
       map_get "https://x.yupoo.com/albums/1"
         (this_data
            (snd (cleanup (Sample.t0 + 10)
                    (snd (get (Sample.t0 + 10) "https://x.yupoo.com/albums/1"
                            (Sample.running Sample.three_entries
                               Sample.current_storage []))))))
       = Some e
       /\ data e = Sample.payload "128".
Proof.
  assert (Hwf : map_wf (this_data
             (Sample.running Sample.three_entries Sample.current_storage []))).
  { apply distinctb_sound. vm_compute. reflexivity. }
  split; [exact Hwf|].
  apply (read_entry_survives_cleanup (Sample.t0 + 10)
           "https://x.yupoo.com/albums/1" (Sample.payload "128")
           (Sample.running Sample.three_entries Sample.current_storage []) Hwf).
  - reflexivity.
  - discriminate.
  - intros k' e' [H|[H|[H|[]]]] Hne; inversion H; subst;
      [now contradiction Hne | vm_compute; reflexivity | vm_compute; reflexivity].
Defined.

(** ** Start-up and clearing *)

Lemma map_set_new {V : Type} (k : string) (v : V) (m : JsMap V) :
  ~ In k (map_keys m) -> map_set k v m = m ++ [(k, v)].
Proof.
  induction m as [|[k0 v0] m IH]; simpl; intros Hnotin; [reflexivity|].
  destruct (String.eqb_spec k k0) as [->|Hne].
  - exfalso. apply Hnotin. now left.
  - f_equal. apply IH. intros Hin. apply Hnotin. now right.
Qed.

(** On stored entries with distinct keys the loading loop is a filter. *)
Lemma load_entries_filter (now : Z) (stored pre : JsMap CacheEntry) :
  map_wf (pre ++ stored) ->
  load_entries now stored pre = pre ++ filter (valid_at now) stored.
Proof.
  revert pre. induction stored as [|[k e] stored IH]; intros pre Hwf.
  - simpl. now rewrite app_nil_r.
  - assert (Hf : filter (valid_at now) ((k, e) :: stored) =
                 if isValidCacheEntry now e
                 then (k, e) :: filter (valid_at now) stored
                 else filter (valid_at now) stored) by reflexivity.
    rewrite Hf. cbn [load_entries].
    unfold map_wf, map_keys in Hwf. rewrite map_app in Hwf. cbn [List.map fst] in Hwf.
    destruct (isValidCacheEntry now e).
    + rewrite map_set_new.
      * rewrite IH; [now rewrite <- app_assoc|].
        unfold map_wf, map_keys. rewrite <- app_assoc, map_app. exact Hwf.
      * apply NoDup_remove_2 in Hwf. intros Hin. apply Hwf.
        apply in_or_app. now left.
    + apply IH. unfold map_wf, map_keys. rewrite map_app.
      now apply NoDup_remove_1 in Hwf.
Qed.

Lemma initialize_run (now : Z) (w : World) (stored : JsMap CacheEntry) :
  this_initialized w = false -> this_data w = [] -> faults w = [] ->
  productCache (local w) = Some stored ->
  metadata_current now (cacheMetadata (local w)) ->
  map_wf stored ->
  exists w',
    initialize now w = (Normal tt, w')
    /\ this_data w' = filter (valid_at now) stored
    /\ this_initialized w' = true
    /\ productCache (local w') = Some stored
    /\ cacheMetadata (local w') =
         Some (match cacheMetadata (local w) with
               | Some md => md
               | None => {| md_version := JsStr (version CACHE_CONFIG);
                            lastCleanup := now |}
               end).
Proof.
  intros Hinit Hdata Hf Hpc Hmd Hwf.
  destruct w as [d i [pc m] f a]. cbn in Hinit, Hdata, Hf, Hpc, Hmd. subst d i f pc.
  run_async.
  destruct m as [[v t]|]; crunch.
  - destruct Hmd as [Hv Hrecent]. cbn in Hv, Hrecent. subst v.
    change (strict_neq_string (JsStr "1.0.0") "1.0.0") with false. crunch.
    destruct (Z.ltb_spec 86400000 (now - t)) as [Hlt|_]; [lia|]. crunch.
    rewrite (load_entries_filter now stored [] Hwf).
    eexists. repeat split.
  - change (strict_neq_string (JsStr "1.0.0") "1.0.0") with false. crunch.
    replace (now - now) with 0 by lia.
    change (86400000 <? 0) with false. crunch.
    rewrite (load_entries_filter now stored [] Hwf).
    eexists. repeat split.
Qed.

(** X7.  A first [initialize()] without storage failures, on stored
    metadata of the expected version with a cleanup in the last 24 hours
    (or on no metadata), loads exactly the stored entries that are valid
    now, in their stored order.  It writes no entry back: the stored entry
    map is the same afterwards, the expired entries included. *)
Theorem initialize_loads_valid_entries :
  forall (now : Z) (w : World) (stored : JsMap CacheEntry),
    this_initialized w = false -> this_data w = [] -> faults w = [] ->
    productCache (local w) = Some stored ->
    metadata_current now (cacheMetadata (local w)) ->
    map_wf stored ->
    let w' := snd (initialize now w) in
    this_data w' = filter (valid_at now) stored
    /\ this_initialized w' = true
    /\ productCache (local w') = Some stored.
Proof.
  intros now w stored Hinit Hdata Hf Hpc Hmd Hwf w'.
  destruct (initialize_run now w stored Hinit Hdata Hf Hpc Hmd Hwf)
    as (w1 & Hrun & Hd & Hi & Hs & _).
  unfold w'. rewrite Hrun. cbn [snd]. auto.
Qed.

Lemma initialize_loads_valid_entries_witness :
  let w' := snd (initialize (Sample.t0 + 10)
                   (Sample.fresh Sample.current_storage [])) in
  this_data w' = filter (valid_at (Sample.t0 + 10)) Sample.three_entries
  /\ this_initialized w' = true
  /\ productCache (local w') = Some Sample.three_entries.
Proof.
  apply (initialize_loads_valid_entries (Sample.t0 + 10)
           (Sample.fresh Sample.current_storage []) Sample.three_entries);
    try reflexivity.
  - split; [reflexivity | vm_compute; discriminate].
  - apply distinctb_sound. vm_compute. reflexivity.
Defined.

(** X8.  Restart.  After a [set] that the storage accepted, a cache
    constructed anew over the same storage (metadata current, no storage
    failure) holds exactly the entries the old cache had in memory that are
    still valid, the new one among them. *)
Theorem restart_restores_entries :
  forall (t0 t1 : Z) (k : string) (v : JsValue) (w : World),
    map_wf (this_data w) -> faults w = [] ->
    metadata_current t1 (cacheMetadata (local w)) ->
    this_data (snd (constructor t1 (snd (set t0 k v w))))
    = filter (valid_at t1)
        (map_set k {| data := v; timestamp := t0; lastAccessed := t0 |}
           (this_data w)).
Proof.
  intros t0 t1 k v w Hwf Hf Hmd.
  rewrite set_eq, persistToStorage_eq. cbn [faults with_data]. rewrite Hf.
  cbn [snd]. unfold constructor, bind, modify.
  match goal with |- context [initialize t1 ?W] =>
    destruct (initialize_run t1 W
                (map_set k {| data := v; timestamp := t0; lastAccessed := t0 |}
                   (this_data w)))
      as (w' & Hrun & Hd & _)
  end; try reflexivity.
  - exact Hf.
  - exact Hmd.
  - apply map_set_wf, Hwf.
  - rewrite Hrun. exact Hd.
Qed.

Lemma restart_restores_entries_witness :
  map_keys
    (this_data
       (snd (constructor (Sample.t0 + 20)
               (snd (set (Sample.t0 + 10) "https://x.yupoo.com/albums/7"
                       (Sample.payload "9")
                       (Sample.running Sample.three_entries
                          Sample.current_storage []))))))
  = [ "https://x.yupoo.com/albums/1"; "https://x.yupoo.com/albums/3";
      "https://x.yupoo.com/albums/7" ]%string.
Proof.
  rewrite restart_restores_entries.
  - vm_compute. reflexivity.
  - apply distinctb_sound. vm_compute. reflexivity.
  - reflexivity.
  - split; [reflexivity | vm_compute; discriminate].
Defined.

(** X9.  [clearCache] empties the map in memory before it touches the
    storage, so afterwards [get] answers [null] for every key, also when
    the removal is rejected.  An accepted removal leaves neither entries
    nor metadata in the storage; a rejected one throws and leaves the
    storage as it was. *)
Theorem clearCache_forgets_everything :
  forall (w : World),
    let w' := snd (clearCache w) in
    this_data w' = []
    /\ (forall now k, fst (get now k w') = Normal JsNull)
    /\ (hd false (faults w) = false ->
        fst (clearCache w) = Normal tt
        /\ local w' = {| productCache := None; cacheMetadata := None |})
    /\ (hd false (faults w) = true ->
        fst (clearCache w) = Throw "storage call rejected"
        /\ local w' = local w).
Proof.
  intros w. cbv zeta.
  unfold clearCache, bind, modify, storage_remove_both, storage_call.
  cbn [faults with_data local].
  destruct (faults w) as [|[|] rest]; cbn [fst snd hd this_data with_local
    with_faults with_data local];
    (split; [reflexivity|]);
    (split; [intros now k; now rewrite get_eq|]);
    split; intros H; try discriminate H; split; reflexivity.
Qed.

(** ** Export, import and the clear buttons *)

Lemma import_items_run (now : Z) (items : list (string * CacheEntry)) :
  forall (w : World),
    faults w = [] -> map_wf (this_data w ++ items) ->
    exists w',
      Settings.import_items now items w = (Normal tt, w')
      /\ this_data w' = this_data w ++ List.map (reimported now) items
      /\ faults w' = []
      /\ alerts w' = alerts w
      /\ cacheMetadata (local w') = cacheMetadata (local w)
      /\ productCache (local w') =
           match items with
           | [] => productCache (local w)
           | _ => Some (this_data w')
           end.
Proof.
  induction items as [|[k e] items IH]; intros w Hf Hwf.
  - exists w. cbn. rewrite app_nil_r. repeat split; auto.
  - cbn [Settings.import_items]. unfold bind.
    rewrite set_eq, persistToStorage_eq. cbn [faults with_data]. rewrite Hf.
    assert (Hnew : ~ In k (map_keys (this_data w))).
    { unfold map_wf, map_keys in Hwf. rewrite map_app in Hwf. cbn in Hwf.
      apply NoDup_remove_2 in Hwf. intros Hin. apply Hwf.
      apply in_or_app. now left. }
    rewrite (map_set_new k _ _ Hnew).
    match goal with |- context [Settings.import_items now items ?W] =>
      destruct (IH W) as (w' & Hrun & Hd & Hf' & Ha & Hm & Hp)
    end.
    + cbn [faults with_local with_data]. exact Hf.
    + cbn [this_data with_local with_data].
      unfold map_wf, map_keys in *. rewrite <- app_assoc.
      rewrite !map_app in *. exact Hwf.
    + exists w'. rewrite Hrun. cbn [this_data with_local with_data] in Hd.
      rewrite <- app_assoc in Hd. cbn [app] in Hd.
      split; [reflexivity|]. split; [exact Hd|].
      split; [exact Hf'|]. split; [exact Ha|]. split; [exact Hm|].
      rewrite Hp. destruct items; [|reflexivity].
      cbn [local with_local productCache]. f_equal.
      rewrite Hd. cbn. reflexivity.
Qed.

Lemma json_items_keys (m : JsMap CacheEntry) :
  map_keys (json_items m) = map_keys m.
Proof.
  unfold json_items, map_keys. rewrite map_map. reflexivity.
Qed.

(** X10.  Export and import in the settings panel.  Importing the file
    that [exportCache] wrote from a cache, into any cache whose storage
    calls succeed, shows no message and leaves exactly the exported keys, in
    their order, each with its payload as JSON carries it and with both
    times set to the time of the import.  The stored entry map is that map
    again, and the stored metadata is gone. *)
Theorem settings_export_import_roundtrip :
  forall (now : Z) (w0 w : World),
    map_wf (this_data w0) -> faults w = [] ->
    exists w',
      Settings.importCache now (Parsed (SettingsActions.exportCache w0)) w
        = (Normal tt, w')
      /\ this_data w' =
           List.map (fun kv =>
                       (fst kv, {| data := json_roundtrip (data (snd kv));
                                   timestamp := now; lastAccessed := now |}))
                    (this_data w0)
      /\ alerts w' = alerts w
      /\ cacheMetadata (local w') = None
      /\ productCache (local w') =
           match this_data w0 with
           | [] => None
           | _ => Some (this_data w')
           end.
Proof.
  intros now w0 w Hwf Hf.
  unfold Settings.importCache, SettingsActions.exportCache, try_catch, parse_file.
  unfold bind at 1. unfold ret at 1. cbn [file_version file_items].
  change (strict_neq_string (JsStr (version CACHE_CONFIG)) (version CACHE_CONFIG))
    with false. cbv iota.
  unfold bind at 1. unfold bind at 1.
  unfold clearCache, bind, modify, storage_remove_both, storage_call.
  cbn [faults with_data]. rewrite Hf.
  match goal with |- context [Settings.import_items now ?I ?W] =>
    destruct (import_items_run now I W) as (w1 & Hrun & Hd & Hf1 & Ha & Hm & Hp)
  end.
  - cbn [faults with_local with_data]. exact Hf.
  - cbn [this_data with_local with_data app].
    unfold map_wf. rewrite json_items_keys. exact Hwf.
  - rewrite Hrun.
    unfold Settings.createCacheStats, bind, storage_get_cacheMetadata,
      storage_call, ret. rewrite Hf1.
    destruct w1 as [d1 i1 [pc1 m1] f1 a1].
    cbn in Hd, Hf1, Ha, Hm, Hp |- *. subst.
    eexists. split; [reflexivity|]. cbn.
    split; [|split; [reflexivity|split; [reflexivity|]]].
    + unfold json_items. rewrite map_map. reflexivity.
    + destruct (this_data w0); reflexivity.
Qed.

Lemma settings_export_import_roundtrip_witness :
  exists w',
    Settings.importCache (Sample.t0 + 50)
      (Parsed (SettingsActions.exportCache
                 (Sample.running Sample.three_entries Sample.current_storage [])))
      (Sample.running [] Sample.empty_storage [])
    = (Normal tt, w')
    /\ map_keys (this_data w') = map_keys Sample.three_entries.
Proof.
  destruct (settings_export_import_roundtrip (Sample.t0 + 50)
              (Sample.running Sample.three_entries Sample.current_storage [])
              (Sample.running [] Sample.empty_storage []))
    as (w' & Hrun & Hd & _).
  - apply distinctb_sound. vm_compute. reflexivity.
  - reflexivity.
  - exists w'. split; [exact Hrun|]. rewrite Hd. reflexivity.
Defined.

(** X11.  Export and import in the popup.  With storage calls that
    succeed, importing the file that the popup exported writes the stored
    entries back with their payloads as JSON carries them and with their
    times unchanged, keeps a stored version string, and sets [lastCleanup]
    to the time of the import.  The map in memory of an open page is not
    touched, and no message is shown. *)
Theorem popup_export_import_roundtrip :
  forall (now : Z) (w : World) (stored : JsMap CacheEntry) (v : string)
         (t : Z),
    faults w = [] ->
    local w = {| productCache := Some stored;
                 cacheMetadata := Some {| md_version := JsStr v;
                                          lastCleanup := t |} |} ->
    v <> EmptyString ->
    exists d w',
      PopupActions.exportCache w = (Normal d, w)
      /\ Popup.importCache now (Parsed d) w = (Normal tt, w')
      /\ local w' = {| productCache := Some (json_items stored);
                       cacheMetadata := Some {| md_version := JsStr v;
                                                lastCleanup := now |} |}
      /\ this_data w' = this_data w
      /\ alerts w' = alerts w.
Proof.
  intros now w stored v t Hf Hlocal Hv.
  destruct w as [d0 i0 s0 f0 a0]. cbn in Hf, Hlocal. subst f0 s0.
  assert (Htruthy : negb (String.eqb v EmptyString) = true).
  { apply negb_true_iff. now apply String.eqb_neq. }
  exists {| file_version := JsStr v; file_items := Some (json_items stored) |}.
  eexists. split; [|split].
  - unfold PopupActions.exportCache, bind, ret, storage_get_both, storage_call.
    cbn. rewrite Htruthy. reflexivity.
  - unfold Popup.importCache, Popup.updateCacheStats, try_catch, bind,
      parse_file, ret, storage_get_both, storage_set_both, storage_call.
    cbn. rewrite Htruthy. cbn. reflexivity.
  - cbn. repeat split.
Qed.

Lemma popup_export_import_roundtrip_witness :
  exists d w',
    PopupActions.exportCache
      (Sample.running [] Sample.current_storage []) = (Normal d, Sample.running [] Sample.current_storage [])
    /\ Popup.importCache (Sample.t0 + 50) (Parsed d)
         (Sample.running [] Sample.current_storage []) = (Normal tt, w')
    /\ productCache (local w') = Some (json_items Sample.three_entries).
Proof.
  destruct (popup_export_import_roundtrip (Sample.t0 + 50)
              (Sample.running [] Sample.current_storage [])
              Sample.three_entries "1.0.0" Sample.t0 eq_refl eq_refl)
    as (d & w' & Hexp & Himp & Hl & _).
  - discriminate.
  - exists d, w'. split; [exact Hexp|]. split; [exact Himp|].
    now rewrite Hl.
Defined.

(** X12.  The popup's 'clear' removes the stored entries and metadata but
    not the map in memory of an open page: the next [set] on that page
    writes every entry it still holds back to the storage. *)
Theorem popup_clear_is_undone_by_next_set :
  forall (now : Z) (k : string) (v : JsValue) (w : World),
    faults w = [] ->
    let w1 := snd (PopupActions.clearCache true w) in
    local w1 = {| productCache := None; cacheMetadata := None |}
    /\ this_data w1 = this_data w
    /\ productCache (local (snd (set now k v w1)))
       = Some (map_set k {| data := v; timestamp := now; lastAccessed := now |}
                 (this_data w)).
Proof.
  intros now k v w Hf. cbv zeta.
  unfold PopupActions.clearCache, Popup.updateCacheStats, bind, ret,
    storage_remove_both, storage_get_both, storage_call.
  rewrite Hf. cbn [faults with_local]. rewrite Hf. cbn [snd local with_local this_data].
  split; [reflexivity|]. split; [reflexivity|].
  rewrite set_eq, persistToStorage_eq.
  cbn [faults with_data with_local]. rewrite Hf. reflexivity.
Qed.

Lemma popup_clear_is_undone_by_next_set_witness :
  let w := Sample.running Sample.three_entries Sample.current_storage [] in
  let w1 := snd (PopupActions.clearCache true w) in
  local w1 = {| productCache := None; cacheMetadata := None |}
  /\ this_data w1 = Sample.three_entries
  /\ productCache (local (snd (set (Sample.t0 + 10) "https://x.yupoo.com/albums/7"
                                 (Sample.payload "9") w1)))
     = Some (map_set "https://x.yupoo.com/albums/7"
               {| data := Sample.payload "9"; timestamp := Sample.t0 + 10;
                  lastAccessed := Sample.t0 + 10 |}
               Sample.three_entries).
Proof.
  apply (popup_clear_is_undone_by_next_set (Sample.t0 + 10)
           "https://x.yupoo.com/albums/7" (Sample.payload "9")
           (Sample.running Sample.three_entries Sample.current_storage [])).
  reflexivity.
Defined.

(** X13.  A cache whose [initialize()] failed at its first storage read
    holds nothing, and its first [set] that the storage accepts overwrites
    the stored entry map: only the new entry is left in the storage. *)
Theorem failed_initialize_then_set_overwrites :
  forall (t0 t1 : Z) (k : string) (v : JsValue) (w : World) (rest : list bool),
    faults w = true :: rest -> hd false rest = false ->
    let w1 := snd (constructor t0 w) in
    this_data w1 = []
    /\ local w1 = local w
    /\ productCache (local (snd (set t1 k v w1)))
       = Some [(k, {| data := v; timestamp := t1; lastAccessed := t1 |})].
Proof.
  intros t0 t1 k v w rest Hf Hrest. cbv zeta.
  destruct w as [d i s f a]. cbn in Hf. subst f.
  assert (H1 : snd (constructor t0
                      {| this_data := d; this_initialized := i; local := s;
                         faults := true :: rest; alerts := a |})
               = {| this_data := []; this_initialized := true; local := s;
                    faults := rest; alerts := a |}).
  { unfold constructor. run_async. reflexivity. }
  rewrite H1. split; [reflexivity|]. split; [reflexivity|].
  rewrite set_eq, persistToStorage_eq. cbn.
  destruct rest as [|[|] rest']; [reflexivity | discriminate Hrest | reflexivity].
Qed.

Lemma failed_initialize_then_set_overwrites_witness :
  let w1 := snd (constructor Sample.t0 (Sample.running [] Sample.current_storage [true])) in
  this_data w1 = []
  /\ local w1 = Sample.current_storage
  /\ productCache (local (snd (set (Sample.t0 + 1) "k" (Sample.payload "9") w1)))
     = Some [("k"%string,
              {| data := Sample.payload "9"; timestamp := Sample.t0 + 1;
                 lastAccessed := Sample.t0 + 1 |})].
Proof.
  apply (failed_initialize_then_set_overwrites Sample.t0 (Sample.t0 + 1) "k"
           (Sample.payload "9")
           (Sample.running [] Sample.current_storage [true]) []);
    reflexivity.
Defined.

(** * Bookmarks *)

Lemma map_set_length {V : Type} (k : string) (v : V) (m : JsMap V) :
  List.length (map_set k v m) =
    if existsb (String.eqb k) (map_keys m) then List.length m
    else S (List.length m).
Proof.
  induction m as [|[k0 v0] m IH]; simpl; [reflexivity|].
  destruct (String.eqb k k0); simpl; [reflexivity|].
  rewrite IH. now destruct (existsb (String.eqb k) (map_keys m)).
Qed.

Lemma map_get_delete_other {V : Type} (k k' : string) (m : JsMap V) :
  k' <> k -> map_get k' (map_delete k m) = map_get k' m.
Proof.
  intros Hne. induction m as [|[k0 v0] m IH]; simpl; [reflexivity|].
  destruct (String.eqb_spec k k0) as [->|Hk]; simpl.
  - destruct (String.eqb_spec k' k0); [contradiction|reflexivity].
  - destruct (String.eqb k' k0); [reflexivity|exact IH].
Qed.

Lemma map_delete_keys {V : Type} (k : string) (m : JsMap V) :
  map_wf m -> ~ In k (map_keys (map_delete k m)).
Proof.
  unfold map_wf, map_keys.
  induction m as [|[k0 v0] m IH]; simpl; intros Hnd; [tauto|].
  apply NoDup_cons_iff in Hnd. destruct Hnd as [Hnotin Hnd].
  destruct (String.eqb_spec k k0) as [->|Hne]; simpl.
  - exact Hnotin.
  - intros [H|H]; [congruence | now apply IH].
Qed.

Lemma map_delete_wf {V : Type} (k : string) (m : JsMap V) :
  map_wf m -> map_wf (map_delete k m).
Proof.
  unfold map_wf, map_keys.
  induction m as [|[k0 v0] m IH]; simpl; intros Hnd; [constructor|].
  apply NoDup_cons_iff in Hnd. destruct Hnd as [Hnotin Hnd].
  destruct (String.eqb k k0); simpl; [exact Hnd|].
  constructor; [|now apply IH].
  intros Hin. apply Hnotin.
  apply in_map_iff in Hin. destruct Hin as [x [Hx Hin]].
  apply in_map_iff. exists x. split; [exact Hx|].
  now apply (map_delete_incl k m).
Qed.

Lemma bookmarks_persist (s : BookmarkManager.State) :
  BookmarkManager.bookmarks (BookmarkManager.persistToStorage s)
  = BookmarkManager.bookmarks s.
Proof.
  unfold BookmarkManager.persistToStorage.
  now destruct (BookmarkManager.faults s) as [|[|] rest].
Qed.

Lemma newest_first_total (a b : BookmarkManager.Bookmark) :
  0 < BookmarkManager.newest_first a b -> BookmarkManager.newest_first b a <= 0.
Proof. unfold BookmarkManager.newest_first. lia. Qed.

Lemma newest_first_trans (a b c : BookmarkManager.Bookmark) :
  BookmarkManager.newest_first a b <= 0 -> BookmarkManager.newest_first b c <= 0 ->
  BookmarkManager.newest_first a c <= 0.
Proof. unfold BookmarkManager.newest_first. lia. Qed.

(** X14.  [add] stores the bookmark under its address: a second [add]
    of the same address replaces the first, any other address keeps its
    bookmark, and [getAll] lists the new bookmark.  The list grows by one
    for a new address however long it is: no limit is applied. *)
Theorem bookmark_add_overwrites_by_url :
  forall (now : Z) (t u : string) (s : BookmarkManager.State),
    let b := {| BookmarkManager.title := t; BookmarkManager.url := u;
                BookmarkManager.timestamp := now |} in
    let s' := BookmarkManager.add now t u s in
    map_get u (BookmarkManager.bookmarks s') = Some b
    /\ In b (BookmarkManager.getAll s')
    /\ (forall u', u' <> u ->
          map_get u' (BookmarkManager.bookmarks s')
          = map_get u' (BookmarkManager.bookmarks s))
    /\ List.length (BookmarkManager.getAll s') =
         (if existsb (String.eqb u) (map_keys (BookmarkManager.bookmarks s))
          then List.length (BookmarkManager.bookmarks s)
          else S (List.length (BookmarkManager.bookmarks s)))
    /\ (map_wf (BookmarkManager.bookmarks s) ->
        map_wf (BookmarkManager.bookmarks s')).
Proof.
  intros now t u s b s'.
  assert (Hb : BookmarkManager.bookmarks s'
               = map_set u b (BookmarkManager.bookmarks s)).
  { unfold s', BookmarkManager.add. now rewrite bookmarks_persist. }
  rewrite Hb. split; [apply map_get_set_same|]. split; [|split; [|split]].
  - unfold BookmarkManager.getAll. rewrite Hb.
    apply (Permutation_in _ (array_sort_perm _ _)).
    apply in_map_iff. exists (u, b). split; [reflexivity|].
    apply map_get_In, map_get_set_same.
  - intros u' Hne. now apply map_get_set_other.
  - unfold BookmarkManager.getAll.
    rewrite array_sort_length, Hb, length_map. apply map_set_length.
  - apply map_set_wf.
Qed.

(** X15.  [getAll] returns every stored bookmark once, the newest first,
    and leaves the manager as it is. *)
Theorem bookmark_getAll_newest_first :
  forall (s : BookmarkManager.State),
    Permutation (List.map snd (BookmarkManager.bookmarks s))
                (BookmarkManager.getAll s)
    /\ StronglySorted
         (fun a b => BookmarkManager.timestamp b <= BookmarkManager.timestamp a)
         (BookmarkManager.getAll s).
Proof.
  intros s. unfold BookmarkManager.getAll. split.
  - apply array_sort_perm.
  - pose proof (array_sort_sorted BookmarkManager.newest_first
                  newest_first_total newest_first_trans
                  (List.map snd (BookmarkManager.bookmarks s))) as H.
    induction H as [|a l Hs IH Hall]; constructor; [exact IH|].
    rewrite Forall_forall in Hall |- *. intros x Hx.
    specialize (Hall x Hx). unfold BookmarkManager.newest_first in Hall. lia.
Qed.

(** X16.  [remove] takes the bookmark of that address out and no other:
    afterwards no bookmark is stored under the address and [getAll] lists
    exactly the bookmarks of the other addresses. *)
Theorem bookmark_remove_by_url :
  forall (u : string) (s : BookmarkManager.State),
    map_wf (BookmarkManager.bookmarks s) ->
    let s' := BookmarkManager.remove u s in
    map_get u (BookmarkManager.bookmarks s') = None
    /\ (forall u', u' <> u ->
          map_get u' (BookmarkManager.bookmarks s')
          = map_get u' (BookmarkManager.bookmarks s))
    /\ (forall b, In b (BookmarkManager.getAll s') ->
          exists u', u' <> u /\ In (u', b) (BookmarkManager.bookmarks s))
    /\ map_wf (BookmarkManager.bookmarks s').
Proof.
  intros u s Hwf s'.
  assert (Hb : BookmarkManager.bookmarks s'
               = map_delete u (BookmarkManager.bookmarks s)).
  { unfold s', BookmarkManager.remove. now rewrite bookmarks_persist. }
  rewrite Hb. split; [|split; [|split]].
  - apply map_get_None. now apply map_delete_keys.
  - intros u' Hne. now apply map_get_delete_other.
  - intros b Hin. unfold BookmarkManager.getAll in Hin. rewrite Hb in Hin.
    apply (Permutation_in _ (Permutation_sym (array_sort_perm _ _))) in Hin.
    apply in_map_iff in Hin. destruct Hin as [[u' b'] [Heq Hin]].
    cbn in Heq. subst b'. exists u'. split.
    + intros ->. apply (map_delete_keys u _ Hwf).
      apply (in_map fst) in Hin. exact Hin.
    + now apply (map_delete_incl u).
  - now apply map_delete_wf.
Qed.

Lemma bookmark_remove_by_url_witness :
  map_wf (BookmarkManager.bookmarks sample_bookmarks)
  /\ map_get "https://x.yupoo.com/albums/1"
       (BookmarkManager.bookmarks
          (BookmarkManager.remove "https://x.yupoo.com/albums/1" sample_bookmarks))
     = None.
Proof.
  assert (Hwf : map_wf (BookmarkManager.bookmarks sample_bookmarks)).
  { apply distinctb_sound. vm_compute. reflexivity. }
  split; [exact Hwf|].
  apply (bookmark_remove_by_url "https://x.yupoo.com/albums/1"
           sample_bookmarks Hwf).
Defined.

Lemma map_of_entries_id (entries pre : JsMap BookmarkManager.Bookmark) :
  map_wf (pre ++ entries) ->
  BookmarkManager.map_of_entries entries pre = pre ++ entries.
Proof.
  revert pre. induction entries as [|[k b] entries IH]; intros pre Hwf.
  - simpl. now rewrite app_nil_r.
  - cbn [BookmarkManager.map_of_entries].
    assert (Hnew : ~ In k (map_keys pre)).
    { unfold map_wf, map_keys in Hwf. rewrite map_app in Hwf. cbn in Hwf.
      apply NoDup_remove_2 in Hwf. intros Hin. apply Hwf.
      apply in_or_app. now left. }
    rewrite (map_set_new k b pre Hnew), IH.
    + now rewrite <- app_assoc.
    + now rewrite <- app_assoc.
Qed.

(** X17.  Bookmarks and the storage.  A write that the storage accepts
    stores the whole map, and a manager started later over that storage
    holds the same bookmarks in the same order.  A rejected write is
    swallowed: the bookmark is in memory only and the stored map is the old
    one. *)
Theorem bookmark_add_persists_and_reloads :
  forall (now : Z) (t u : string) (s : BookmarkManager.State),
    map_wf (BookmarkManager.bookmarks s) ->
    let s' := BookmarkManager.add now t u s in
    (hd false (BookmarkManager.faults s) = false ->
     BookmarkManager.stored s' = Some (BookmarkManager.bookmarks s')
     /\ forall f, hd false f = false ->
          BookmarkManager.bookmarks
            (BookmarkManager.initialize
               {| BookmarkManager.bookmarks := [];
                  BookmarkManager.initialized := false;
                  BookmarkManager.stored := BookmarkManager.stored s';
                  BookmarkManager.faults := f |})
          = BookmarkManager.bookmarks s')
    /\ (hd false (BookmarkManager.faults s) = true ->
        BookmarkManager.stored s' = BookmarkManager.stored s).
Proof.
  intros now t u s Hwf s'.
  assert (Hb : BookmarkManager.bookmarks s'
               = map_set u {| BookmarkManager.title := t; BookmarkManager.url := u;
                              BookmarkManager.timestamp := now |}
                   (BookmarkManager.bookmarks s)).
  { unfold s', BookmarkManager.add. now rewrite bookmarks_persist. }
  assert (Hwf' : map_wf (BookmarkManager.bookmarks s'))
    by (rewrite Hb; now apply map_set_wf).
  split.
  - intros Hok.
    assert (Hst : BookmarkManager.stored s' = Some (BookmarkManager.bookmarks s')).
    { unfold s', BookmarkManager.add, BookmarkManager.persistToStorage,
        BookmarkManager.with_bookmarks. cbn.
      destruct (BookmarkManager.faults s) as [|[|] rest];
        [reflexivity | discriminate Hok | reflexivity]. }
    split; [exact Hst|].
    intros f Hf. unfold BookmarkManager.initialize. cbn. rewrite Hst.
    destruct f as [|[|] rest]; [|discriminate Hf|]; cbn;
      apply (map_of_entries_id _ [] Hwf').
  - intros Hbad.
    unfold s', BookmarkManager.add, BookmarkManager.persistToStorage,
      BookmarkManager.with_bookmarks. cbn.
    destruct (BookmarkManager.faults s) as [|[|] rest];
      [discriminate Hbad | reflexivity | discriminate Hbad].
Qed.

Lemma bookmark_add_persists_and_reloads_witness :
  map_wf (BookmarkManager.bookmarks sample_bookmarks)
  /\ BookmarkManager.stored
       (BookmarkManager.add 1700000009000 "Hat" "https://x.yupoo.com/albums/3"
          sample_bookmarks)
     = Some (BookmarkManager.bookmarks
               (BookmarkManager.add 1700000009000 "Hat"
                  "https://x.yupoo.com/albums/3" sample_bookmarks)).
Proof.
  assert (Hwf : map_wf (BookmarkManager.bookmarks sample_bookmarks)).
  { apply distinctb_sound. vm_compute. reflexivity. }
  split; [exact Hwf|].
  destruct (bookmark_add_persists_and_reloads 1700000009000 "Hat"
              "https://x.yupoo.com/albums/3" sample_bookmarks Hwf) as [Hok _].
  apply Hok. reflexivity.
Defined.

(** * Exchange rates *)

(** X18.  When every source fails (a rejected fetch, a status that is
    not ok, a body that does not parse or is [null]), [fetchExchangeRates]
    on a stale or empty cache throws 'Failed to fetch exchange rates from
    all sources' and leaves the cache as it was, so [convertCurrency] goes
    on with the table it had. *)
Theorem rates_all_sources_fail :
  forall (net : string -> ExchangeRates.RateResponse) (now : Z)
         (cache : CurrencyCache),
    ExchangeRates.is_fresh now cache = false ->
    (forall u, In u ExchangeRates.urls -> usable (net u) = false) ->
    ExchangeRates.fetchExchangeRates net now cache
      = (Throw "Failed to fetch exchange rates from all sources", cache)
    /\ forall amount f t,
         convertCurrency
           (snd (ExchangeRates.fetchExchangeRates net now cache)) amount f t
         = convertCurrency cache amount f t.
Proof.
  intros net now cache Hstale Hfail.
  assert (Hrun : ExchangeRates.fetchExchangeRates net now cache
                 = (Throw "Failed to fetch exchange rates from all sources", cache)).
  { unfold ExchangeRates.fetchExchangeRates. rewrite Hstale.
    unfold ExchangeRates.urls in *. cbn [ExchangeRates.try_sources].
    pose proof (Hfail _ (or_introl eq_refl)) as H1.
    pose proof (Hfail _ (or_intror (or_introl eq_refl))) as H2.
    destruct (net _) as [|[|] [| |c1]]; try discriminate H1;
      destruct (net _) as [|[|] [| |c2]]; try discriminate H2; reflexivity. }
  split; [exact Hrun|]. intros amount f t. now rewrite Hrun.
Qed.

Lemma rates_all_sources_fail_witness :
  ExchangeRates.is_fresh (1700000000000 + 2 * 3600000) stale_rates = false
  /\ ExchangeRates.fetchExchangeRates offline (1700000000000 + 2 * 3600000)
       stale_rates
     = (Throw "Failed to fetch exchange rates from all sources", stale_rates).
Proof.
  split; [reflexivity|].
  apply (rates_all_sources_fail offline (1700000000000 + 2 * 3600000) stale_rates).
  - reflexivity.
  - intros u _. reflexivity.
Defined.

(** X19.  A table that a call fetched at a nonzero time [t] is served
    from the cache by every call made less than one hour later: the
    network is not consulted, whatever it would answer, and the cache is
    not changed. *)
Theorem rates_cached_for_an_hour :
  forall (net net' : string -> ExchangeRates.RateResponse) (t t' : Z)
         (cache cache' : CurrencyCache) (table : JsMap float),
    ExchangeRates.is_fresh t cache = false ->
    ExchangeRates.fetchExchangeRates net t cache = (Normal (Some table), cache') ->
    t <> 0 -> t' - t < 1 * 60 * 60 * 1000 ->
    ExchangeRates.fetchExchangeRates net' t' cache' = (Normal (Some table), cache').
Proof.
  intros net net' t t' cache cache' table Hstale Hrun Ht Hsoon.
  unfold ExchangeRates.fetchExchangeRates in Hrun. rewrite Hstale in Hrun.
  assert (Hc : cache' = {| rates := Some table; lastUpdate := Some t |}).
  { unfold ExchangeRates.urls in Hrun. cbn [ExchangeRates.try_sources] in Hrun.
    destruct (net _) as [|[|] [| |c1]];
      try (inversion Hrun; subst; reflexivity);
      destruct (net _) as [|[|] [| |c2]];
      try (inversion Hrun; subst; reflexivity); discriminate Hrun. }
  subst cache'. unfold ExchangeRates.fetchExchangeRates, ExchangeRates.is_fresh.
  cbn [rates lastUpdate].
  assert (H0 : (t =? 0) = false) by now apply Z.eqb_neq.
  assert (H1 : (t' - t <? ExchangeRates.updateInterval) = true).
  { apply Z.ltb_lt. unfold ExchangeRates.updateInterval. lia. }
  now rewrite H0, H1.
Qed.

Lemma rates_cached_for_an_hour_witness :
  ExchangeRates.fetchExchangeRates offline (1700000000000 + 2 * 3600000 + 1800000)
    {| rates := Some [("usd"%string, 0.15%float)];
       lastUpdate := Some (1700000000000 + 2 * 3600000) |}
  = (Normal (Some [("usd"%string, 0.15%float)]),
     {| rates := Some [("usd"%string, 0.15%float)];
        lastUpdate := Some (1700000000000 + 2 * 3600000) |}).
Proof.
  apply (rates_cached_for_an_hour second_source_only offline
           (1700000000000 + 2 * 3600000) (1700000000000 + 2 * 3600000 + 1800000)
           stale_rates).
  - reflexivity.
  - reflexivity.
  - discriminate.
  - reflexivity.
Defined.

(** X20.  The sources are tried in their order.  On a stale or empty
    cache a usable answer of the first source is taken and the second
    source does not matter; when the first source fails in any way, a usable
    answer of the second is taken.  Either way the cache holds that table,
    with the time of the call. *)
Theorem rates_sources_in_order :
  forall (net : string -> ExchangeRates.RateResponse) (now : Z)
         (cache : CurrencyCache) (cny : option (JsMap float)),
    ExchangeRates.is_fresh now cache = false ->
    (net first_source
       = ExchangeRates.Answered true (ExchangeRates.BodyData cny)
     \/ (usable (net first_source) = false
         /\ net second_source
            = ExchangeRates.Answered true (ExchangeRates.BodyData cny))) ->
    ExchangeRates.fetchExchangeRates net now cache
      = (Normal cny, {| rates := cny; lastUpdate := Some now |}).
Proof.
  intros net now cache cny Hstale Hnet.
  unfold ExchangeRates.fetchExchangeRates. rewrite Hstale.
  unfold ExchangeRates.urls. cbn [ExchangeRates.try_sources].
  fold first_source. fold second_source.
  destruct Hnet as [H1|[H1 H2]].
  - now rewrite H1.
  - rewrite H2.
    destruct (net first_source) as [|[|] [| |c1]];
      try reflexivity; discriminate H1.
Qed.

Lemma rates_sources_in_order_witness :
  ExchangeRates.is_fresh (1700000000000 + 2 * 3600000) stale_rates = false
  /\ ExchangeRates.fetchExchangeRates second_source_only
       (1700000000000 + 2 * 3600000) stale_rates
     = (Normal (Some [("usd"%string, 0.15%float)]),
        {| rates := Some [("usd"%string, 0.15%float)];
           lastUpdate := Some (1700000000000 + 2 * 3600000) |}).
Proof.
  split; [reflexivity|].
  apply (rates_sources_in_order second_source_only).
  - reflexivity.
  - right. split; reflexivity.
Defined.

(** X21.  An answer that is ok and parses but has no [cny] member counts
    as a success: the call returns [undefined] and does not throw, the
    table in the cache is replaced by [undefined], and from then on
    [convertCurrency] returns every amount as it is. *)
Theorem rates_answer_without_cny_drops_table :
  forall (net : string -> ExchangeRates.RateResponse) (now : Z)
         (cache : CurrencyCache),
    ExchangeRates.is_fresh now cache = false ->
    net first_source = ExchangeRates.Answered true (ExchangeRates.BodyData None) ->
    ExchangeRates.fetchExchangeRates net now cache
      = (Normal None, {| rates := None; lastUpdate := Some now |})
    /\ forall amount f t,
         convertCurrency
           (snd (ExchangeRates.fetchExchangeRates net now cache)) amount f t
         = amount.
Proof.
  intros net now cache Hstale Hnet.
  assert (Hrun : ExchangeRates.fetchExchangeRates net now cache
                 = (Normal None, {| rates := None; lastUpdate := Some now |})).
  { unfold ExchangeRates.fetchExchangeRates. rewrite Hstale.
    unfold ExchangeRates.urls. cbn [ExchangeRates.try_sources].
    fold first_source. now rewrite Hnet. }
  split; [exact Hrun|]. intros amount f t. rewrite Hrun. reflexivity.
Qed.

Lemma rates_answer_without_cny_drops_table_witness :
  convertCurrency
    (snd (ExchangeRates.fetchExchangeRates answers_without_cny
            (1700000000000 + 2 * 3600000) stale_rates))
    100%float "cny" "usd"
  = 100%float.
Proof.
  destruct (rates_answer_without_cny_drops_table answers_without_cny
              (1700000000000 + 2 * 3600000) stale_rates eq_refl eq_refl)
    as [_ H].
  apply H.
Defined.

(** * The quick-buy link *)









(** X23.  The mulebuy entry formats its address exactly as the cnfans
    entry does: with mulebuy as the agent the quick-buy button opens a
    cnfans.com address, not one under mulebuy's own [baseUrl]. *)
Theorem quickBuy_mulebuy_opens_cnfans :
  forall (br : Browser) (details : option ResolvedPrice),
    QuickBuy.quickBuy br "mulebuy" details = QuickBuy.quickBuy br "cnfans" details
    /\ forall u, QuickBuy.quickBuy br "mulebuy" details = Normal (Some u) ->
         exists rest,
           u = ("https://cnfans.com/product/?shop_type=" ++ rest)%string.
Proof.
  intros br details. split.
  - unfold QuickBuy.quickBuy.
    destruct details as [d|]; [|reflexivity].
    destruct (link (r_data d)) as [l|]; [|reflexivity].
    destruct (String.eqb l EmptyString); reflexivity.
  - intros u Hu. unfold QuickBuy.quickBuy in Hu.
    destruct details as [d|]; [|discriminate Hu].
    destruct (link (r_data d)) as [l|]; [|discriminate Hu].
    destruct (String.eqb l EmptyString); [discriminate Hu|].
    cbn in Hu. inversion Hu. eexists. reflexivity.
Qed.

(** X24.  A result without platform, which is what the selection falls
    back to (the taobao entry as it is), is treated as a taobao item when
    the product id is extracted, but hoobuy's address gets the path number
    2, the one of weidian, and cnfans' address gets the shop type
    'undefined'. *)
Theorem quickBuy_fallback_result_platform :
  forall (br : Browser) (d : PlatformPrice) (l : string),
    link d = Some l -> l <> EmptyString ->
    QuickBuy.quickBuy br "hoobuy" (Some (plain d))
      = Normal (Some ("https://hoobuy.com/product/2/"
                      ++ QuickBuy.show_id (extractTaobaoId br ("https://" ++ l)))%string)
    /\ QuickBuy.quickBuy br "cnfans" (Some (plain d))
       = Normal (Some ("https://cnfans.com/product/?shop_type=undefined&id="
                       ++ QuickBuy.show_id (extractTaobaoId br ("https://" ++ l)))%string).
Proof.
  intros br d l Hl Hne.
  assert (E : String.eqb l EmptyString = false) by now apply String.eqb_neq.
  unfold QuickBuy.quickBuy, plain. cbn [r_data r_platform]. rewrite Hl, E.
  split; reflexivity.
Qed.

Lemma quickBuy_fallback_result_platform_witness :
  QuickBuy.quickBuy Sample.lookup_fails_browser "hoobuy"
    (Some (plain {| price := "N/A";
                    link := Some "item.taobao.com/item.htm?id=1"%string |}))
  = Normal (Some "https://hoobuy.com/product/2/1"%string).
Proof.
  destruct (quickBuy_fallback_result_platform Sample.lookup_fails_browser
              {| price := "N/A"; link := Some "item.taobao.com/item.htm?id=1"%string |}
              "item.taobao.com/item.htm?id=1" eq_refl) as [H _].
  - discriminate.
  - exact H.
Defined.

(** * The background page *)

(** X25.  The listener answers every 'fetchPrice' request once.  The
    answer reports success, with the page text, only when the fetch
    resolved with an ok status and the body was read; a network error, a
    status that is not ok and a failed body read are answered with
    [success: false] and a message.  In the content script such an answer
    leaves the price of the platform at what it was. *)
Theorem background_failure_keeps_price :
  forall (fetch : string -> Background.FetchOutcome)
         (price_of : string -> option string) (br : Browser)
         (platform u : string) (prices : JsMap PlatformPrice),
    sendMessage br u
      = Background.to_reply price_of (Background.onMessage fetch "fetchPrice" u) ->
    exists resp,
      Background.onMessage fetch "fetchPrice" u = Some resp
      /\ (Background.success resp = true <->
          exists status html,
            fetch u = Background.Response true status (Background.BodyText html)
            /\ Background.body resp = Some html)
      /\ (Background.success resp = false ->
          Background.error resp <> None
          /\ fetch_price br platform u prices = prices).
Proof.
  intros fetch price_of br platform u prices Hsend.
  unfold fetch_price. rewrite Hsend.
  unfold Background.onMessage, Background.to_reply. cbn [String.eqb Ascii.eqb Bool.eqb].
  destruct (fetch u) as [m|[|] status [html|m]]; eexists;
    (split; [reflexivity|]); cbn; split;
    try (split; [intros H; discriminate H
                | intros (st & h & H & _); discriminate H]);
    try (intros _; split; [discriminate | reflexivity]).
  - split; [intros _; exists status, html; auto | reflexivity].
  - intros H; discriminate H.
Qed.

Lemma background_failure_keeps_price_witness :
  Background.onMessage not_found "fetchPrice" "https://www.jadeship.com/item/taobao/1"
  = Some {| Background.success := false; Background.body := None;
            Background.error := Some "HTTP error! status: 404"%string |}
  /\ fetch_price (proxied_browser not_found) "taobao"
       "https://www.jadeship.com/item/taobao/1" Sample.prices_weidian_only
     = Sample.prices_weidian_only.
Proof.
  destruct (background_failure_keeps_price not_found no_price_node
              (proxied_browser not_found) "taobao"
              "https://www.jadeship.com/item/taobao/1"
              Sample.prices_weidian_only eq_refl)
    as (resp & Hresp & _ & Hfail).
  split; [reflexivity|].
  vm_compute in Hresp. inversion Hresp; subst resp.
  apply Hfail. reflexivity.
Defined.

(** * Read-through resolution *)

Lemma js_of_details_truthy (r : ResolvedPrice) :
  truthy (ProcessProduct.js_of_details r) = true.
Proof. reflexivity. Qed.

Lemma fetchProductDetails_normal (br : Browser) (href : string) :
  exists r, fetchProductDetails br href = Normal r.
Proof.
  unfold fetchProductDetails.
  destruct (fetch_body br href) as [r|e]; eauto.
Qed.

Lemma resolve_network (br : Browser) (now : Z) (useCache : bool) (href : string)
  (w : World) :
  useCache = false \/ fst (get now href w) = Normal JsNull ->
  exists r w',
    fetchProductDetails br href = Normal r
    /\ ProcessProduct.resolve br now useCache href w
       = (Normal (ProcessProduct.js_of_details r), w')
    /\ map_get href (this_data w')
       = Some {| data := ProcessProduct.js_of_details r;
                 timestamp := now; lastAccessed := now |}.
Proof.
  intros Hmiss.
  destruct (fetchProductDetails_normal br href) as (r & Hr).
  exists r.
  assert (Hcached : exists w0,
            (if useCache then get now href else ret JsNull) w = (Normal JsNull, w0)
            /\ this_data w0 = this_data w).
  { destruct Hmiss as [-> | Hnull]; [now exists w|].
    destruct useCache; [|now exists w].
    rewrite get_eq in Hnull |- *.
    destruct (map_get href (this_data w)) as [e|]; [|now exists w].
    destruct (isValidCacheEntry now e) eqn:Hv; [|now exists w].
    cbn in Hnull. inversion Hnull as [Hd].
    apply isValidCacheEntry_true in Hv. destruct Hv as (_ & _ & Ht).
    rewrite Hd in Ht. discriminate Ht. }
  destruct Hcached as (w0 & Hc & Hd0).
  unfold ProcessProduct.resolve. unfold bind at 1. rewrite Hc.
  cbn [truthy]. rewrite Hr. unfold bind. rewrite set_eq.
  destruct (persistToStorage_total
              (with_data (map_set href
                            {| data := ProcessProduct.js_of_details r;
                               timestamp := now; lastAccessed := now |}
                            (this_data w0)) w0))
    as (w' & Hp & Hd & _).
  exists w'. rewrite Hp. split; [reflexivity|]. split; [reflexivity|].
  rewrite Hd. cbn [this_data with_data]. apply map_get_set_same.
Qed.

Lemma resolve_hit_value (br : Browser) (now : Z) (href : string) (w : World)
  (e : CacheEntry) :
  map_get href (this_data w) = Some e ->
  isValidCacheEntry now e = true ->
  fst (ProcessProduct.resolve br now true href w) = Normal (data e).
Proof.
  intros Hget Hv.
  unfold ProcessProduct.resolve. unfold bind at 1.
  rewrite get_eq, Hget, Hv.
  apply isValidCacheEntry_true in Hv. destruct Hv as (_ & _ & Ht).
  now rewrite Ht.
Qed.

(** X26.  A hit.  When the cache holds a valid entry for the listing,
    the resolution returns its payload without asking the network,
    whatever the browser would answer, and without a write to the storage:
    only the [lastAccessed] of the entry changes. *)
Theorem resolve_hit_skips_network :
  forall (br : Browser) (now : Z) (href : string) (w : World) (e : CacheEntry),
    map_get href (this_data w) = Some e ->
    isValidCacheEntry now e = true ->
    ProcessProduct.resolve br now true href w
      = (Normal (data e),
         with_data (map_set href (touch now e) (this_data w)) w).
Proof.
  intros br now href w e Hget Hv.
  unfold ProcessProduct.resolve. unfold bind at 1.
  rewrite get_eq, Hget, Hv.
  apply isValidCacheEntry_true in Hv. destruct Hv as (_ & _ & Ht).
  now rewrite Ht.
Qed.

Lemma resolve_hit_skips_network_witness :
  ProcessProduct.resolve Sample.slow_browser (Sample.t0 + 10) true
    "https://x.yupoo.com/albums/1"
    (Sample.running Sample.three_entries Sample.current_storage [])
  = (Normal (Sample.payload "128"),
     with_data
       (map_set "https://x.yupoo.com/albums/1"
          (touch (Sample.t0 + 10) (Sample.entry "128" Sample.t0 (Sample.t0 + 5)))
          Sample.three_entries)
       (Sample.running Sample.three_entries Sample.current_storage [])).
Proof.
  apply (resolve_hit_skips_network Sample.slow_browser (Sample.t0 + 10)
           "https://x.yupoo.com/albums/1"
           (Sample.running Sample.three_entries Sample.current_storage [])
           (Sample.entry "128" Sample.t0 (Sample.t0 + 5)));
    reflexivity.
Defined.

(** X27.  A miss is remembered.  What a resolution fetched from the
    network at a nonzero time, on a miss or with the cache switched off (the
    retry button), is what every resolution with the cache returns for that
    listing during the next seven days, whatever the network does then and
    whether or not the storage took the write.  This holds for a failed
    fetch too: its 'N/A' result is served from the cache. *)
Theorem resolve_miss_is_remembered :
  forall (br br' : Browser) (t0 t1 : Z) (useCache : bool) (href : string)
         (w : World),
    useCache = false \/ fst (get t0 href w) = Normal JsNull ->
    t0 <> 0 -> t1 - t0 < maxAge CACHE_CONFIG ->
    fst (ProcessProduct.resolve br' t1 true href
           (snd (ProcessProduct.resolve br t0 useCache href w)))
    = fst (ProcessProduct.resolve br t0 useCache href w).
Proof.
  intros br br' t0 t1 useCache href w Hmiss Ht Hage.
  destruct (resolve_network br t0 useCache href w Hmiss)
    as (r & w' & _ & Hrun & Hentry).
  rewrite Hrun. cbn [fst snd].
  rewrite (resolve_hit_value br' t1 href w' _ Hentry); [reflexivity|].
  apply isValidCacheEntry_true. cbn. auto.
Qed.

Lemma resolve_miss_is_remembered_witness :
  fst (ProcessProduct.resolve Sample.lookup_fails_browser (Sample.t0 + 3600000) true
         "https://x.yupoo.com/albums/7"
         (snd (ProcessProduct.resolve Sample.slow_browser Sample.t0 true
                 "https://x.yupoo.com/albums/7"
                 (Sample.running Sample.three_entries Sample.current_storage []))))
  = Normal (JsObj [("price"%string, JsStr "N/A"); ("link"%string, JsNull)]).
Proof.
  rewrite (resolve_miss_is_remembered Sample.slow_browser
             Sample.lookup_fails_browser Sample.t0 (Sample.t0 + 3600000) true
             "https://x.yupoo.com/albums/7"
             (Sample.running Sample.three_entries Sample.current_storage []));
    [reflexivity | right; reflexivity | discriminate | reflexivity].
Defined.
